(** * DepthPro fast image processor: preprocessing and depth post-processing

    A shallow embedding of
    [src/transformers/models/depth_pro/image_processing_depth_pro_fast.py]
    (class [DepthProImageProcessorFast]) together with the properties the
    specification states about it.

    Conventions of the embedding:
    - tensor elements are idealised as real numbers ([R]); rounding, NaN and
      infinities of the floating-point backend are outside the model;
    - a tensor is its shape together with its elements in row-major order;
    - Python exceptions are values of [error]; a function that can raise
      returns a [result];
    - the mutation of the [outputs] dictionary in the post-processing loop is
      written as explicit state passing;
    - calls into torch / torchvision whose numerics are not part of this
      repository ([torch.nn.functional.interpolate], the [Resize] transform)
      are parameters of the development. *)

From Stdlib Require Import String Reals Lra Lia List Bool Arith PeanoNat.
Import ListNotations.

Local Open Scope R_scope.

(** ** Exceptions and the error monad *)

(** [ValueError] is only ever produced by the [raise ValueError(...)]
    statements of the embedded module; an exception that propagates out of a
    torch / torchvision call is a [TorchError]. *)
Inductive error : Type :=
| ValueError (msg : string)
| IndexError
| KeyError
| AttributeError
| TypeError
| TorchError.

Inductive result (A : Type) : Type :=
| Ok (a : A)
| Err (e : error).

Arguments Ok {A} a.
Arguments Err {A} e.

Definition bind {A B : Type} (m : result A) (k : A -> result B) : result B :=
  match m with
  | Ok a => k a
  | Err e => Err e
  end.

Notation "x <- m ;; k" := (bind m (fun x => k))
  (at level 61, m at next level, right associativity).
Notation "' pat <- m ;; k" := (bind m (fun x => match x with pat => k end))
  (at level 61, pat pattern, m at next level, right associativity).

Definition is_ValueError (e : error) : Prop :=
  match e with ValueError _ => True | _ => False end.

(** An external call either returns a value or raises. *)
Definition lift_torch {A : Type} (o : option A) : result A :=
  match o with
  | Some a => Ok a
  | None => Err TorchError
  end.

Fixpoint mapM {A B : Type} (f : A -> result B) (l : list A) : result (list B) :=
  match l with
  | [] => Ok []
  | x :: xs => y <- f x ;; ys <- mapM f xs ;; Ok (y :: ys)
  end.

(** ** Tensors *)

Record tensor : Type := mkTensor {
  shape : list nat;
  data : list R
}.

Definition numel (s : list nat) : nat := fold_right Nat.mul 1%nat s.

Definition wf_tensor (t : tensor) : Prop :=
  length (data t) = numel (shape t).

(** Element-wise application of a scalar function. *)
Definition tmap (f : R -> R) (t : tensor) : tensor :=
  mkTensor (shape t) (map f (data t)).

(** Element [i, j] of a two-dimensional tensor of width [w]. *)
Definition get2 (t : tensor) (w i j : nat) : R :=
  nth (i * w + j) (data t) 0.

(** [Tensor.unsqueeze(dim)]: a new axis of size one at position [dim]. *)
Definition unsqueeze (dim : nat) (t : tensor) : tensor :=
  mkTensor (firstn dim (shape t) ++ 1%nat :: skipn dim (shape t)) (data t).

(** [Tensor.squeeze()] without argument: every axis of size one is removed. *)
Definition squeeze (t : tensor) : tensor :=
  mkTensor (filter (fun d => negb (Nat.eqb d 1)) (shape t)) (data t).

(** [torch.clamp(x, min, max)] on one element. *)
Definition clamp (x lo hi : R) : R := Rmin (Rmax x lo) hi.

(** [torch.deg2rad] on one element. *)
Definition deg2rad (x : R) : R := x * (PI / 180).

(** ** Enumerations declared outside this module *)

(** Modelled from the spec: [PILImageResampling] (declared in [image_utils])
    is the "resample filter kind" of the preprocessing parameters; the
    constructors are the filters of the pixel library. *)
Inductive PILImageResampling : Type :=
| NEAREST | BOX | BILINEAR | HAMMING | BICUBIC | LANCZOS.

(** Modelled from the spec: [ImageType] (declared in [image_utils]) is the
    detected "input image element type".  The source names [PIL], [TORCH] and
    [NUMPY]; [OTHER] stands for any other detected type. *)
Inductive ImageType : Type :=
| PIL | TORCH | NUMPY | OTHER.

Definition ImageType_eqb (a b : ImageType) : bool :=
  match a, b with
  | PIL, PIL | TORCH, TORCH | NUMPY, NUMPY | OTHER, OTHER => true
  | _, _ => false
  end.

(** An input image: its detected element type and its pixel array.  A
    pixel-library image and a raw array are laid out (height, width,
    channels); a tensor is taken as it is. *)
Record image : Type := mkImage {
  kind : ImageType;
  array : tensor
}.

(** ** The processor object *)

(** [SizeDict(height=..., width=...)]. *)
Record SizeDict : Type := mkSize {
  height : nat;
  width : nat
}.

(** Per-channel statistic: [Union[float, List[float]]]. *)
Inductive image_stat : Type :=
| Scalar (v : R)
| PerChannel (vs : list R).

(** Attributes of [DepthProImageProcessorFast] after [__init__]; [Self.x p]
    reads [self.x].  [size], [image_mean] and [image_std] are always set by
    [__init__]; [resample], [antialias] and [rescale_factor] are stored as
    passed. *)
Module Self.
Record t : Type := mk {
  do_resize : bool;
  size : SizeDict;
  resample : option PILImageResampling;
  antialias : option bool;
  do_rescale : bool;
  rescale_factor : option R;
  do_normalize : bool;
  image_mean : image_stat;
  image_std : image_stat
}.
End Self.

Definition DepthProImageProcessorFast : Type := Self.t.

Section Constants.

(** [IMAGENET_STANDARD_MEAN] and [IMAGENET_STANDARD_STD], constants of
    [image_utils]. *)
Variable IMAGENET_STANDARD_MEAN IMAGENET_STANDARD_STD : list R.

(** [__init__], lines 111-122; [get_size_dict] leaves a
    {"height": h, "width": w} dictionary as it is. *)
Definition __init__ (do_resize : bool) (size : option SizeDict)
    (resample : option PILImageResampling) (antialias : option bool)
    (do_rescale : bool) (rescale_factor : option R) (do_normalize : bool)
    (image_mean image_std : option image_stat) : DepthProImageProcessorFast :=
  let size := match size with Some s => s | None => mkSize 1536 1536 end in
  Self.mk do_resize size resample antialias do_rescale rescale_factor
    do_normalize
    (match image_mean with
     | Some m => m
     | None => PerChannel IMAGENET_STANDARD_MEAN
     end)
    (match image_std with
     | Some m => m
     | None => PerChannel IMAGENET_STANDARD_STD
     end).

(** The signature defaults of [__init__]. *)
Definition default_processor : DepthProImageProcessorFast :=
  __init__ true None (Some BILINEAR) (Some false) true (Some (1 / 255)) true
    None None.

End Constants.

(** ** Depth post-processing *)

(** The dictionary returned by [post_process_depth_estimation]. *)
Record Outputs : Type := mkOutputs {
  predicted_depth : list tensor;
  fov : option (list R)
}.

Definition length_mismatch_msg : string :=
  "Make sure that you pass in as many fov values as the batch dimension of the predicted depth"%string.

Definition clamp_min : R := 1e-4.
Definition clamp_max : R := 1e4.

(** Line 383: [1.0 / torch.clamp(predicted_depth, min=1e-4, max=1e4)]. *)
Definition inverse_depth (t : tensor) : tensor :=
  tmap (fun x => 1 / clamp x clamp_min clamp_max) t.

(** Line 369: [0.5 * width / torch.tan(0.5 * torch.deg2rad(fov))]. *)
Definition corrected_fov (width : nat) (fov : R) : R :=
  0.5 * INR width / tan (0.5 * deg2rad fov).

(** Line 370: [predicted_depth * width / fov]. *)
Definition scale_depth (width : nat) (fov : R) (t : tensor) : tensor :=
  tmap (fun x => x * INR width / fov) t.

(** [outputs["fov"].append(fov)]; the attribute lookup fails on [None]. *)
Definition append_fov (outputs : Outputs) (f : R) : result Outputs :=
  match fov outputs with
  | Some l => Ok (mkOutputs (predicted_depth outputs) (Some (l ++ [f])))
  | None => Err AttributeError
  end.

Definition append_depth (outputs : Outputs) (t : tensor) : Outputs :=
  mkOutputs (predicted_depth outputs ++ [t]) (fov outputs).

(** ** A reference resampler

    Nearest-neighbour resampling is the simplest function of the type of
    [torch.nn.functional.interpolate]; it serves to run the definitions
    below on concrete inputs. *)

(** Row-major position of the source pixel of output position [k], for an
    input with planes of size (H, W) resampled to planes of size (h, w). *)
Definition nearest_index (H W h w k : nat) : nat :=
  (k / (h * w) * (H * W) + ((k / w) mod h * H / h) * W + (k mod w) * W / w)%nat.

Definition nearest_interpolate (t : tensor) (sz : nat * nat)
    (mode : PILImageResampling) (antialias : option bool) : option tensor :=
  match shape t with
  | [B; C; H; W] =>
      let h := fst sz in
      let w := snd sz in
      Some (mkTensor [B; C; h; w]
              (map (fun k => nth (nearest_index H W h w k) (data t) 0)
                   (seq 0 (B * C * h * w))))
  | _ => None
  end.

(** The same resampler on one (C, H, W) tensor, of the type of torchvision's
    [Resize]. *)
Definition nearest_resize (img : image) (sz : nat * nat)
    (mode : PILImageResampling) (antialias : option bool) : option image :=
  match kind img, shape (array img) with
  | TORCH, [C; H; W] =>
      match nearest_interpolate (unsqueeze 0 (array img)) sz mode antialias with
      | Some r => Some (mkImage TORCH (mkTensor (tl (shape r)) (data r)))
      | None => None
      end
  | _, _ => None
  end.

(** *** Sample inputs *)

(** A processor built with the signature defaults. *)
Definition example_processor : DepthProImageProcessorFast :=
  default_processor [0.5; 0.5; 0.5] [0.5; 0.5; 0.5].

(** The interpolation table as the identity on filter names. *)
Definition example_mapping (r : PILImageResampling)
  : option PILImageResampling := Some r.

(** A 2 x 2 raw depth map holding the values of the specification's
    examples. *)
Definition example_depth : tensor :=
  mkTensor [2; 2]%nat [2; 0.00001; 1e5; 1].

(** A raw array of height 1, width 2 and 3 channels. *)
Definition example_image : image :=
  mkImage NUMPY (mkTensor [1; 2; 3]%nat [10; 20; 30; 40; 50; 60]).

(** A processor whose resample filter was left unset. *)
Definition example_processor_no_filter : DepthProImageProcessorFast :=
  Self.mk true (mkSize 2 2) None (Some false) true (Some (1 / 255)) true
    (Scalar 0.5) (Scalar 0.5).

Section Torch.

(** torchvision's [InterpolationMode] and the table
    [pil_torch_interpolation_mapping] of [image_utils] (a dictionary: a
    missing key raises [KeyError]). *)
Variable InterpolationMode : Type.
Variable pil_torch_interpolation_mapping :
  PILImageResampling -> option InterpolationMode.

(** [torch.nn.functional.interpolate(input, size, mode, antialias)], on an
    input of shape (B, C, H, W). *)
Variable interpolate :
  tensor -> nat * nat -> InterpolationMode -> option bool -> option tensor.

(** [pil_torch_interpolation_mapping[resample]]. *)
Definition lookup_interpolation (r : option PILImageResampling)
  : result InterpolationMode :=
  match r with
  | None => Err KeyError
  | Some r =>
      match pil_torch_interpolation_mapping r with
      | Some m => Ok m
      | None => Err KeyError
      end
  end.

(** Lines 374-380: the call to [interpolate] on the depth map with a batch
    and a channel axis added, followed by [.squeeze()]. *)
Definition interpolate_depth (self : DepthProImageProcessorFast)
    (predicted_depth : tensor) (target_size : nat * nat) : result tensor :=
  mode <- lookup_interpolation (Self.resample self) ;;
  r <- lift_torch (interpolate (unsqueeze 1 (unsqueeze 0 predicted_depth))
                     target_size mode (Self.antialias self)) ;;
  Ok (squeeze r).

(** Body of the loop of lines 362-385, for one sample. *)
Definition process_sample (self : DepthProImageProcessorFast)
    (outputs : Outputs) (predicted_depth : tensor) (fov : option R)
    (target_size : option (nat * nat)) : result Outputs :=
  '(predicted_depth, outputs) <-
    match target_size with
    | Some target_size =>
        '(predicted_depth, outputs) <-
          match fov with
          | Some fov =>
              let width := snd target_size in
              let fov := corrected_fov width fov in
              let predicted_depth := scale_depth width fov predicted_depth in
              outputs <- append_fov outputs fov ;;
              Ok (predicted_depth, outputs)
          | None => Ok (predicted_depth, outputs)
          end ;;
        predicted_depth <- interpolate_depth self predicted_depth target_size ;;
        Ok (predicted_depth, outputs)
    | None => Ok (predicted_depth, outputs)
    end ;;
  let predicted_depth := inverse_depth predicted_depth in
  Ok (append_depth outputs predicted_depth).

(** The [for ... in zip(predicted_depths, fovs, target_sizes)] loop. *)
Fixpoint process_samples (self : DepthProImageProcessorFast)
    (outputs : Outputs) (predicted_depths : list tensor)
    (fovs : list (option R)) (target_sizes : list (option (nat * nat)))
  : result Outputs :=
  match predicted_depths, fovs, target_sizes with
  | d :: ds, f :: fs, t :: ts =>
      outputs <- process_sample self outputs d f t ;;
      process_samples self outputs ds fs ts
  | _, _, _ => Ok outputs
  end.

Definition is_Some {A : Type} (o : option A) : bool :=
  match o with Some _ => true | None => false end.

(** [x is not None and len(predicted_depths) != len(x)]. *)
Definition length_differs {A B : Type} (l : list A) (o : option (list B)) : bool :=
  match o with
  | Some x => negb (Nat.eqb (length l) (length x))
  | None => false
  end.

(** [[None] * len(predicted_depths) if x is None else x]. *)
Definition or_nones {A B : Type} (l : list A) (o : option (list B))
  : list (option B) :=
  match o with
  | None => repeat None (length l)
  | Some x => map Some x
  end.

(** [post_process_depth_estimation], lines 345-387.  [fovs] and
    [target_sizes] are [None] or a sequence with one value per sample, as
    the signature declares them; torch is taken to be installed, so that
    [requires_backends] returns. *)
Definition post_process_depth_estimation (self : DepthProImageProcessorFast)
    (predicted_depths : list tensor) (fovs : option (list R))
    (target_sizes : option (list (nat * nat))) : result Outputs :=
  if length_differs predicted_depths fovs then
    Err (ValueError length_mismatch_msg)
  else if length_differs predicted_depths target_sizes then
    Err (ValueError length_mismatch_msg)
  else
    let outputs :=
      mkOutputs [] (if is_Some fovs then Some [] else None) in
    let fovs := or_nones predicted_depths fovs in
    let target_sizes := or_nones predicted_depths target_sizes in
    process_samples self outputs predicted_depths fovs target_sizes.


(** [[None] * len(predicted_depths) if x is None else x], for a sequence
    whose entries may themselves be [None]. *)
Definition or_nones_entries {A B : Type} (l : list A)
    (o : option (list (option B))) : list (option B) :=
  match o with
  | None => repeat None (length l)
  | Some x => x
  end.

(** [post_process_depth_estimation], lines 345-387, on sequences whose
    entries may be [None]: the loop tests every sample with
    [target_size is not None] and [fov is not None], and a Python list can
    hold [None] next to values.  [post_process_depth_estimation] above is
    this function on sequences without [None] entries. *)
Definition post_process_depth_estimation_per_sample
    (self : DepthProImageProcessorFast) (predicted_depths : list tensor)
    (fovs : option (list (option R)))
    (target_sizes : option (list (option (nat * nat)))) : result Outputs :=
  if length_differs predicted_depths fovs then
    Err (ValueError length_mismatch_msg)
  else if length_differs predicted_depths target_sizes then
    Err (ValueError length_mismatch_msg)
  else
    let outputs :=
      mkOutputs [] (if is_Some fovs then Some [] else None) in
    let fovs := or_nones_entries predicted_depths fovs in
    let target_sizes := or_nones_entries predicted_depths target_sizes in
    process_samples self outputs predicted_depths fovs target_sizes.

(** *** What the loop computes, sample by sample *)

(** The values the loop appends to [outputs["fov"]]: one for every sample
    that has both a target size and a fov value, in input order. *)
Fixpoint fov_values (fovs : list (option R))
    (target_sizes : list (option (nat * nat))) : list R :=
  match fovs, target_sizes with
  | f :: fs, t :: ts =>
      match t, f with
      | Some sz, Some v => corrected_fov (snd sz) v :: fov_values fs ts
      | _, _ => fov_values fs ts
      end
  | _, _ => []
  end.

(** [y] is the depth map the loop body appends for the sample
    [(d, f, t)]. *)
Definition depth_of_sample (self : DepthProImageProcessorFast) (d : tensor)
    (f : option R) (t : option (nat * nat)) (y : tensor) : Prop :=
  match t with
  | None => y = inverse_depth d
  | Some sz =>
      let d' :=
        match f with
        | Some v => scale_depth (snd sz) (corrected_fov (snd sz) v) d
        | None => d
        end in
      exists mode r,
        lookup_interpolation (Self.resample self) = Ok mode /\
        interpolate (unsqueeze 1 (unsqueeze 0 d')) sz mode (Self.antialias self)
          = Some r /\
        y = inverse_depth (squeeze r)
  end.

Inductive depths_of_samples (self : DepthProImageProcessorFast)
  : list tensor -> list (option R) -> list (option (nat * nat)) ->
    list tensor -> Prop :=
| depths_nil : depths_of_samples self [] [] [] []
| depths_cons d f t y ds fs ts ys :
    depth_of_sample self d f t y ->
    depths_of_samples self ds fs ts ys ->
    depths_of_samples self (d :: ds) (f :: fs) (t :: ts) (y :: ys).

(** The shape [interpolate] is documented to return on a (B, C, H, W)
    input. *)
Definition interpolate_shape_law : Prop :=
  forall t sz mode aa r B C H W,
    interpolate t sz mode aa = Some r ->
    shape t = [B; C; H; W] ->
    shape r = [B; C; fst sz; snd sz].

(** *** The depth map of one sample, as a function *)

(** The depth map the loop body computes for one sample (lines 364-383),
    apart from the bookkeeping of [outputs]. *)
Definition sample_depth (self : DepthProImageProcessorFast) (d : tensor)
    (f : option R) (t : option (nat * nat)) : result tensor :=
  match t with
  | Some sz =>
      let d' :=
        match f with
        | Some v => scale_depth (snd sz) (corrected_fov (snd sz) v) d
        | None => d
        end in
      r <- interpolate_depth self d' sz ;;
      Ok (inverse_depth r)
  | None => Ok (inverse_depth d)
  end.

Fixpoint sample_depths (self : DepthProImageProcessorFast)
    (ds : list tensor) (fs : list (option R))
    (ts : list (option (nat * nat))) : result (list tensor) :=
  match ds, fs, ts with
  | d :: ds, f :: fs, t :: ts =>
      y <- sample_depth self d f t ;;
      ys <- sample_depths self ds fs ts ;;
      Ok (y :: ys)
  | _, _, _ => Ok []
  end.

(** [interpolate] returns tensors whose number of elements is the product
    of their shape. *)
Definition interpolate_wf_law : Prop :=
  forall t sz mode aa r, interpolate t sz mode aa = Some r -> wf_tensor r.

(** Concatenation of two optional lists that are both given or both
    absent. *)
Definition option_app {A : Type} (a b : option (list A)) : option (list A) :=
  match a, b with
  | Some x, Some y => Some (x ++ y)
  | _, _ => None
  end.

(** ** Preprocessing *)

(** Modelled from the spec: [get_image_type] (declared in [image_utils])
    "detects the element type" of an image. *)
Definition get_image_type (img : image) : ImageType := kind img.

(** [BatchFeature(data, tensor_type)]. *)
Record BatchFeature : Type := mkBatchFeature {
  bf_data : list (string * tensor);
  tensor_type : option string
}.

(** The steps [_build_transforms] can append.  The step classes are
    declared outside this module; a step is the record of the arguments it
    was constructed with, and constructing one is taken to return. *)
Inductive transform : Type :=
| PILToTensor
| NumpyToTensor
| FusedRescaleNormalize (mean std : image_stat) (rescale_factor : option R)
| Rescale (rescale_factor : option R)
| Normalize (mean std : image_stat)
| Resize (size : nat * nat) (interpolation : InterpolationMode)
    (antialias : option bool).

(** [_build_transforms], lines 140-168.  The list [transforms] is threaded
    through the three groups of [append]s. *)
Definition _build_transforms (do_resize : bool) (size : SizeDict)
    (resample : option PILImageResampling) (antialias : option bool)
    (do_rescale : bool) (rescale_factor : option R) (do_normalize : bool)
    (image_mean image_std : image_stat) (image_type : ImageType)
  : result (list transform) :=
  let transforms := [] in
  let transforms :=
    if ImageType_eqb image_type PIL then transforms ++ [PILToTensor]
    else if ImageType_eqb image_type NUMPY then transforms ++ [NumpyToTensor]
    else transforms in
  let transforms :=
    if do_rescale && do_normalize then
      transforms ++ [FusedRescaleNormalize image_mean image_std rescale_factor]
    else if do_rescale then transforms ++ [Rescale rescale_factor]
    else if do_normalize then transforms ++ [Normalize image_mean image_std]
    else transforms in
  if do_resize then
    interpolation <- lookup_interpolation resample ;;
    Ok (transforms ++ [Resize (height size, width size) interpolation antialias])
  else Ok transforms.

(** Modelled from the spec: [get_transforms] (a method of the base class
    [BaseImageProcessorFast], not part of this module) "builds transforms per
    4.2"; its memoisation "is an optimization, not a correctness
    requirement". *)
Definition get_transforms := _build_transforms.

Definition is_None {A : Type} (o : option A) : bool :=
  match o with Some _ => false | None => true end.

Definition option_string_eqb (a : option string) (b : string) : bool :=
  match a with
  | Some s => String.eqb s b
  | None => false
  end.

(** [ChannelDimension.FIRST], a string-valued enumeration member. *)
Definition ChannelDimension_FIRST : string := "channels_first"%string.

(** [_validate_input_arguments], lines 186-199.  The function is pure, so the
    [lru_cache] around it is not observable. *)
Definition _validate_input_arguments (return_tensors : option string)
    (do_resize : bool) (size : option SizeDict)
    (resample : option PILImageResampling) (antialias : option bool)
    (do_rescale : bool) (rescale_factor : option R) (do_normalize : bool)
    (image_mean image_std : option image_stat) (data_format : string)
    (image_type : ImageType) : result unit :=
  if negb (option_string_eqb return_tensors "pt") then
    Err (ValueError "Only returning PyTorch tensors is currently supported.")
  else if negb (String.eqb data_format ChannelDimension_FIRST) then
    Err (ValueError "Only channel first data format is currently supported.")
  else if do_resize && (is_None size || is_None resample || is_None antialias) then
    Err (ValueError
           "Size, resample and antialias must be specified if do_resize is True.")
  else if do_rescale && is_None rescale_factor then
    Err (ValueError "Rescale factor must be specified if do_rescale is True.")
  else if do_normalize && (is_None image_mean || is_None image_std) then
    Err (ValueError
           "Image mean and standard deviation must be specified if do_normalize is True.")
  else Ok tt.

(** The condition under which [_validate_input_arguments] raises. *)
Definition invalid_arguments (return_tensors : option string)
    (do_resize : bool) (size : option SizeDict)
    (resample : option PILImageResampling) (antialias : option bool)
    (do_rescale : bool) (rescale_factor : option R) (do_normalize : bool)
    (image_mean image_std : option image_stat) (data_format : string) : Prop :=
  return_tensors <> Some "pt"%string \/
  data_format <> ChannelDimension_FIRST \/
  (do_resize = true /\ (size = None \/ resample = None \/ antialias = None)) \/
  (do_rescale = true /\ rescale_factor = None) \/
  (do_normalize = true /\ (image_mean = None \/ image_std = None)).

(** *** Meaning of the transform steps *)

(** Row-major position, in a (height, width, channels) array, of the element
    that sits at row-major position [k] of the (channels, height, width)
    tensor. *)
Definition hwc_index (H W C k : nat) : nat :=
  ((((k / W) mod H) * W + k mod W) * C + k / (H * W))%nat.

(** Modelled from the spec: the conversion step "produces a channel-first
    numeric tensor with values in their original range (no implicit rescale
    during this conversion)" ([PILToTensor] of torchvision and
    [NumpyToTensor] of [image_transforms]). *)
Definition hwc_to_chw (t : tensor) : result tensor :=
  match shape t with
  | [H; W; C] =>
      Ok (mkTensor [C; H; W]
            (map (fun k => nth (hwc_index H W C k) (data t) 0)
                 (seq 0 (C * H * W))))
  | _ => Err TorchError
  end.

Definition mapi (f : nat -> R -> R) (l : list R) : list R :=
  map (fun p => f (fst p) (snd p)) (combine (seq 0 (length l)) l).

(** The value of a statistic for each of [C] channels. *)
Definition channel_stats (s : image_stat) (C : nat) : result (nat -> R) :=
  match s with
  | Scalar v => Ok (fun _ => v)
  | PerChannel vs =>
      if Nat.eqb (length vs) C then Ok (fun c => nth c vs 0)
      else Err TorchError
  end.

(** Apply [f c x] to every element [x] of channel [c] of a (C, H, W)
    tensor. *)
Definition map_channels (f : nat -> R -> R) (H W : nat) (t : tensor) : tensor :=
  mkTensor (shape t) (mapi (fun k x => f (k / (H * W))%nat x) (data t)).

(** Modelled from the spec: [Rescale] (declared in [image_transforms])
    applies "x * rescale_factor". *)
Definition rescale (rescale_factor : option R) (t : tensor) : result tensor :=
  match rescale_factor with
  | Some r => Ok (tmap (fun x => x * r) t)
  | None => Err TypeError
  end.

(** Modelled from the spec: [Normalize] (torchvision) applies
    "(x - mean) / std" per channel. *)
Definition normalize (mean std : image_stat) (t : tensor) : result tensor :=
  match shape t with
  | [C; H; W] =>
      m <- channel_stats mean C ;;
      s <- channel_stats std C ;;
      Ok (map_channels (fun c x => (x - m c) / s c) H W t)
  | _ => Err TorchError
  end.

(** Modelled from the spec: [FusedRescaleNormalize] (declared in
    [image_transforms]) is "a single step computing
    (x * rescale_factor - mean) / std per channel". *)
Definition fused_rescale_normalize (mean std : image_stat)
    (rescale_factor : option R) (t : tensor) : result tensor :=
  match rescale_factor with
  | Some r =>
      match shape t with
      | [C; H; W] =>
          m <- channel_stats mean C ;;
          s <- channel_stats std C ;;
          Ok (map_channels (fun c x => (x * r - m c) / s c) H W t)
      | _ => Err TorchError
      end
  | None => Err TypeError
  end.

(** torchvision's [Resize] transform applied to one image. *)
Variable tv_resize :
  image -> nat * nat -> InterpolationMode -> option bool -> option image.

Definition as_tensor (img : image) : result tensor :=
  match kind img with
  | TORCH => Ok (array img)
  | _ => Err TypeError
  end.

(** One step of the composed transform. *)
Definition apply_transform (t : transform) (img : image) : result image :=
  match t with
  | PILToTensor =>
      match kind img with
      | PIL => x <- hwc_to_chw (array img) ;; Ok (mkImage TORCH x)
      | _ => Err TypeError
      end
  | NumpyToTensor =>
      match kind img with
      | NUMPY => x <- hwc_to_chw (array img) ;; Ok (mkImage TORCH x)
      | _ => Err TypeError
      end
  | FusedRescaleNormalize mean std r =>
      x <- as_tensor img ;;
      y <- fused_rescale_normalize mean std r x ;;
      Ok (mkImage TORCH y)
  | Rescale r =>
      x <- as_tensor img ;; y <- rescale r x ;; Ok (mkImage TORCH y)
  | Normalize mean std =>
      x <- as_tensor img ;; y <- normalize mean std x ;; Ok (mkImage TORCH y)
  | Resize sz interpolation aa => lift_torch (tv_resize img sz interpolation aa)
  end.

(** [Compose(transforms)(image)]: the steps applied in order. *)
Fixpoint Compose (transforms : list transform) (img : image) : result image :=
  match transforms with
  | [] => Ok img
  | t :: ts => img <- apply_transform t img ;; Compose ts img
  end.

Definition shape_eqb (a b : list nat) : bool :=
  if list_eq_dec Nat.eq_dec a b then true else false.

(** [torch.stack(tensors, dim=0)]: the list must be non-empty, hold tensors
    only, and the shapes must agree. *)
Definition torch_stack (imgs : list image) : result tensor :=
  ts <- mapM as_tensor imgs ;;
  match ts with
  | [] => Err TorchError
  | t0 :: rest =>
      if forallb (fun t => shape_eqb (shape t) (shape t0)) rest then
        Ok (mkTensor (length ts :: shape t0) (concat (map data ts)))
      else Err TorchError
  end.

(** [x if x is not None else self.x]. *)
Definition or_default {A : Type} (x : option A) (d : A) : A :=
  match x with Some v => v | None => d end.

Definition or_else {A : Type} (x d : option A) : option A :=
  match x with Some v => Some v | None => d end.

Definition supported_image_type (t : ImageType) : bool :=
  ImageType_eqb t PIL || ImageType_eqb t TORCH || ImageType_eqb t NUMPY.

(** [preprocess], lines 258-308.  [images] is the list produced by
    [make_list_of_images]; [input_data_format] is not read by the body. *)
Definition preprocess (self : DepthProImageProcessorFast) (images : list image)
    (do_resize : option bool) (size : option SizeDict)
    (resample : option PILImageResampling) (antialias : option bool)
    (do_rescale : option bool) (rescale_factor : option R)
    (do_normalize : option bool) (image_mean image_std : option image_stat)
    (return_tensors : option string) (data_format : string)
  : result BatchFeature :=
  let do_resize := or_default do_resize (Self.do_resize self) in
  let do_rescale := or_default do_rescale (Self.do_rescale self) in
  let do_normalize := or_default do_normalize (Self.do_normalize self) in
  let resample := or_else resample (Self.resample self) in
  let antialias := or_else antialias (Self.antialias self) in
  let rescale_factor := or_else rescale_factor (Self.rescale_factor self) in
  let image_mean := or_default image_mean (Self.image_mean self) in
  let image_std := or_default image_std (Self.image_std self) in
  let size := or_default size (Self.size self) in
  match images with
  | [] => Err IndexError
  | first :: _ =>
      let image_type := get_image_type first in
      if negb (supported_image_type image_type) then
        Err (ValueError "Unsupported input image type")
      else
        _ <- _validate_input_arguments return_tensors do_resize (Some size)
               resample antialias do_rescale rescale_factor do_normalize
               (Some image_mean) (Some image_std) data_format image_type ;;
        transforms <- get_transforms do_resize size resample antialias
                        do_rescale rescale_factor do_normalize image_mean
                        image_std image_type ;;
        transformed_images <- mapM (Compose transforms) images ;;
        pixel_values <- torch_stack transformed_images ;;
        Ok (mkBatchFeature [("pixel_values"%string, pixel_values)] return_tensors)
  end.

(** *** The three groups of steps, as the specification words them *)

(** "If input element type is a pixel-library image or a raw numeric array,
    prepend a conversion step." *)
Definition conversion_steps (image_type : ImageType) : list transform :=
  match image_type with
  | PIL => [PILToTensor]
  | NUMPY => [NumpyToTensor]
  | _ => []
  end.

(** "If both rescale and normalize are requested, fuse them into a single
    step; if only rescale requested, rescale; if only normalize requested,
    normalize; if neither, no-op." *)
Definition scaling_steps (do_rescale do_normalize : bool)
    (rescale_factor : option R) (image_mean image_std : image_stat)
  : list transform :=
  match do_rescale, do_normalize with
  | true, true => [FusedRescaleNormalize image_mean image_std rescale_factor]
  | true, false => [Rescale rescale_factor]
  | false, true => [Normalize image_mean image_std]
  | false, false => []
  end.

Definition is_conversion (t : transform) : bool :=
  match t with PILToTensor | NumpyToTensor => true | _ => false end.

Definition is_scaling (t : transform) : bool :=
  match t with
  | FusedRescaleNormalize _ _ _ | Rescale _ | Normalize _ _ => true
  | _ => false
  end.

Definition is_resize (t : transform) : bool :=
  match t with Resize _ _ _ => true | _ => false end.

(** Channels, height and width of an input image. *)
Definition image_chw (img : image) : option (nat * nat * nat) :=
  match kind img, shape (array img) with
  | PIL, [H; W; C] | NUMPY, [H; W; C] => Some (C, H, W)
  | TORCH, [C; H; W] => Some (C, H, W)
  | _, _ => None
  end.

(** The shape torchvision's [Resize] is documented to return on a (C, H, W)
    tensor. *)
Definition tv_resize_shape_law : Prop :=
  forall img sz mode aa img' C H W,
    tv_resize img sz mode aa = Some img' ->
    kind img = TORCH ->
    shape (array img) = [C; H; W] ->
    shape (array img') = [C; fst sz; snd sz].

(** Every parameter a step carries is set. *)
Definition step_parameters_set (t : transform) : Prop :=
  match t with
  | FusedRescaleNormalize _ _ rf => rf <> None
  | Rescale rf => rf <> None
  | Resize _ _ aa => aa <> None
  | _ => True
  end.

(** * Properties *)

(** ** The error monad *)

Lemma bind_Ok {A B : Type} (m : result A) (k : A -> result B) (b : B) :
  bind m k = Ok b -> exists a, m = Ok a /\ k a = Ok b.
Proof.
  destruct m as [a|e]; simpl; intros H; [eauto | discriminate].
Qed.

Lemma mapM_length {A B : Type} (f : A -> result B) (l : list A) (ys : list B) :
  mapM f l = Ok ys -> length ys = length l.
Proof.
  revert ys; induction l as [|x xs IH]; simpl; intros ys H.
  - injection H as <-; reflexivity.
  - apply bind_Ok in H as (y & _ & H).
    apply bind_Ok in H as (ys' & Hxs & H).
    injection H as <-; simpl; f_equal; auto.
Qed.

Lemma mapM_nth_error {A B : Type} (f : A -> result B) (l : list A)
    (ys : list B) (i : nat) (x : A) :
  mapM f l = Ok ys -> nth_error l i = Some x ->
  exists y, nth_error ys i = Some y /\ f x = Ok y.
Proof.
  revert ys i; induction l as [|a xs IH]; simpl; intros ys i H Hi.
  - destruct i; discriminate.
  - apply bind_Ok in H as (y & Hy & H).
    apply bind_Ok in H as (ys' & Hxs & H).
    injection H as <-.
    destruct i as [|i]; simpl in *.
    + injection Hi as ->; eauto.
    + eauto.
Qed.

Lemma lift_torch_Ok {A : Type} (o : option A) (a : A) :
  lift_torch o = Ok a -> o = Some a.
Proof. destruct o; simpl; congruence. Qed.

(** Invert every successful monadic computation among the hypotheses. *)
Ltac monad_inv :=
  repeat match goal with
  | H : bind _ _ = Ok _ |- _ =>
      let a := fresh "a" in
      let Ha := fresh "Ha" in
      apply bind_Ok in H as (a & Ha & H)
  | H : (let (_, _) := ?x in _) = Ok _ |- _ => destruct x
  | H : lift_torch _ = Ok _ |- _ => apply lift_torch_Ok in H
  | H : Ok _ = Ok _ |- _ => injection H as H; try subst
  | H : Err _ = Ok _ |- _ => discriminate H
  end.

Lemma flat_index_lt (a b n m : nat) :
  (a < n)%nat -> (b < m)%nat -> (a * m + b < n * m)%nat.
Proof.
  intros Ha Hb.
  apply Nat.lt_le_trans with ((a + 1) * m)%nat; [lia|].
  apply Nat.mul_le_mono_r; lia.
Qed.

(** ** Clamp and reciprocal *)

Lemma clamp_bounds (x : R) : clamp_min <= clamp x clamp_min clamp_max <= clamp_max.
Proof.
  unfold clamp, clamp_min, clamp_max, Rmin, Rmax.
  destruct (Rle_dec x 1e-4); destruct (Rle_dec _ 1e4); lra.
Qed.

Lemma inverse_in_range (x : R) :
  clamp_min <= 1 / clamp x clamp_min clamp_max <= clamp_max.
Proof.
  pose proof (clamp_bounds x) as [Hlo Hhi].
  set (y := clamp x clamp_min clamp_max) in *.
  unfold clamp_min, clamp_max in *.
  assert (H1 : / y <= / 1e-4) by (apply Rinv_le_contravar; lra).
  assert (H2 : / 1e4 <= / y) by (apply Rinv_le_contravar; lra).
  unfold Rdiv; rewrite Rmult_1_l; lra.
Qed.

Lemma inverse_depth_shape (t : tensor) : shape (inverse_depth t) = shape t.
Proof. reflexivity. Qed.

Lemma inverse_depth_nth (t : tensor) (k : nat) :
  (k < length (data t))%nat ->
  nth k (data (inverse_depth t)) 0 =
  1 / clamp (nth k (data t) 0) clamp_min clamp_max.
Proof.
  intros Hk; unfold inverse_depth, tmap; simpl.
  rewrite nth_indep with (d' := 1 / clamp 0 clamp_min clamp_max)
    by (rewrite length_map; exact Hk).
  apply (map_nth (fun x => 1 / clamp x clamp_min clamp_max)).
Qed.

Lemma inverse_depth_range (t : tensor) :
  Forall (fun x => clamp_min <= x <= clamp_max) (data (inverse_depth t)).
Proof.
  unfold inverse_depth, tmap; simpl.
  apply Forall_forall; intros x Hx.
  apply in_map_iff in Hx as (y & <- & _).
  apply inverse_in_range.
Qed.

(** The specification's examples: 2.0 gives 0.5, 0.00001 gives 1e4 and 1e5
    gives 1e-4. *)
Example inverse_of_2 : 1 / clamp 2 clamp_min clamp_max = 0.5.
Proof.
  unfold clamp, clamp_min, clamp_max, Rmin, Rmax.
  destruct (Rle_dec 2 1e-4); [lra|]. destruct (Rle_dec 2 1e4); lra.
Qed.

Example inverse_below_range : 1 / clamp 0.00001 clamp_min clamp_max = 1e4.
Proof.
  unfold clamp, clamp_min, clamp_max, Rmin, Rmax.
  destruct (Rle_dec 0.00001 1e-4); [|lra]. destruct (Rle_dec 1e-4 1e4); lra.
Qed.

Example inverse_above_range : 1 / clamp 1e5 clamp_min clamp_max = 1e-4.
Proof.
  unfold clamp, clamp_min, clamp_max, Rmin, Rmax.
  destruct (Rle_dec 1e5 1e-4); [lra|]. destruct (Rle_dec 1e5 1e4); lra.
Qed.

(** The specification's example: a fov of 60 degrees and a target width of
    100 give f = 50 * sqrt 3, about 86.6. *)
Example corrected_fov_60_100 : corrected_fov 100 60 = 50 * sqrt 3.
Proof.
  unfold corrected_fov, deg2rad.
  replace (0.5 * (60 * (PI / 180))) with (PI / 6) by lra.
  rewrite tan_PI6.
  replace (INR 100) with 100 by (simpl; lra).
  unfold Rdiv; rewrite Rmult_1_l, Rinv_inv; lra.
Qed.

(** ** The post-processing loop *)

Lemma option_map_app_nil (o : option (list R)) :
  option_map (fun l => l ++ []) o = o.
Proof. destruct o; simpl; rewrite ?app_nil_r; reflexivity. Qed.

Lemma process_sample_spec self acc d f t out :
  process_sample self acc d f t = Ok out ->
  fov out = option_map (fun l => l ++ fov_values [f] [t]) (fov acc) /\
  exists y, predicted_depth out = predicted_depth acc ++ [y] /\
            depth_of_sample self d f t y.
Proof.
  unfold process_sample, depth_of_sample, interpolate_depth, append_fov.
  destruct t as [sz|]; simpl.
  - destruct f as [v|]; simpl; intros H.
    + destruct (fov acc) as [l|] eqn:Hl; simpl in H; [|discriminate].
      monad_inv; simpl.
      split; [reflexivity|].
      eexists; split; [reflexivity|]; eauto.
    + monad_inv; simpl.
      split; [symmetry; apply option_map_app_nil|].
      eexists; split; [reflexivity|]; eauto.
  - intros H; monad_inv; simpl.
    split; [destruct f; symmetry; apply option_map_app_nil|].
    eexists; split; reflexivity.
Qed.

Lemma fov_values_cons f t fs ts :
  fov_values (f :: fs) (t :: ts) = fov_values [f] [t] ++ fov_values fs ts.
Proof. simpl; destruct t, f; reflexivity. Qed.

Lemma process_samples_spec self ds :
  forall fs ts acc out,
    length fs = length ds -> length ts = length ds ->
    process_samples self acc ds fs ts = Ok out ->
    fov out = option_map (fun l => l ++ fov_values fs ts) (fov acc) /\
    exists ys, predicted_depth out = predicted_depth acc ++ ys /\
               depths_of_samples self ds fs ts ys.
Proof.
  induction ds as [|d ds IH]; intros fs ts acc out Hf Ht H.
  - destruct fs; [|discriminate]. destruct ts; [|discriminate].
    simpl in H; injection H as <-.
    split.
    + symmetry; apply option_map_app_nil.
    + exists []; rewrite app_nil_r; split; [reflexivity | constructor].
  - destruct fs as [|f fs]; [discriminate|].
    destruct ts as [|t ts]; [discriminate|].
    simpl in Hf, Ht, H.
    apply bind_Ok in H as (mid & Hmid & H).
    apply process_sample_spec in Hmid as (Hfov & y & Hpd & Hy).
    apply IH in H as (Hfov' & ys & Hpd' & Hys); [|lia|lia].
    split.
    + rewrite Hfov', Hfov, (fov_values_cons f t fs ts).
      destruct (fov acc); cbn [option_map]; [rewrite app_assoc|]; reflexivity.
    + exists (y :: ys); split.
      * rewrite Hpd', Hpd, <- app_assoc; reflexivity.
      * constructor; assumption.
Qed.

Lemma depths_of_samples_length self ds fs ts ys :
  depths_of_samples self ds fs ts ys -> length ys = length ds.
Proof. induction 1; simpl; congruence. Qed.

Lemma depths_of_samples_nth self ds fs ts ys :
  depths_of_samples self ds fs ts ys ->
  forall i d f t,
    nth_error ds i = Some d -> nth_error fs i = Some f ->
    nth_error ts i = Some t ->
    exists y, nth_error ys i = Some y /\ depth_of_sample self d f t y.
Proof.
  induction 1 as [|d0 f0 t0 y0 ds fs ts ys Hy _ IH]; intros i d f t Hd Hf Ht.
  - destruct i; discriminate.
  - destruct i as [|i]; simpl in *.
    + injection Hd as <-; injection Hf as <-; injection Ht as <-; eauto.
    + eauto.
Qed.

Lemma depth_of_sample_inverse self d f t y :
  depth_of_sample self d f t y -> exists x, y = inverse_depth x.
Proof.
  unfold depth_of_sample; destruct t as [sz|].
  - intros (mode & r & _ & _ & ->); eauto.
  - intros ->; eauto.
Qed.

Lemma or_nones_length {A B : Type} (l : list A) (o : option (list B)) :
  length_differs l o = false -> length (or_nones l o) = length l.
Proof.
  destruct o as [x|]; simpl.
  - rewrite length_map, negb_false_iff, Nat.eqb_eq; auto.
  - intros _; apply repeat_length.
Qed.

Lemma nth_error_repeat_None {B : Type} (n i : nat) (o : option B) :
  nth_error (repeat (@None B) n) i = Some o -> o = None.
Proof.
  intros H; apply nth_error_In, repeat_spec in H; exact H.
Qed.

Lemma fov_values_None_r fs n :
  fov_values fs (repeat None n) = [].
Proof.
  revert n; induction fs as [|f fs IH]; intros [|n]; simpl; auto.
Qed.

Lemma fov_values_Some fl tl :
  fov_values (map Some fl) (map Some tl) =
  map (fun p => corrected_fov (snd (snd p)) (fst p)) (combine fl tl).
Proof.
  revert tl; induction fl as [|v fl IH]; intros [|sz tl]; simpl; auto.
  f_equal; apply IH.
Qed.

(** The result of a call that passes the two length checks. *)
Lemma post_process_spec self ds fovs tss out :
  post_process_depth_estimation self ds fovs tss = Ok out ->
  length_differs ds fovs = false /\
  length_differs ds tss = false /\
  fov out = (if is_Some fovs
             then Some (fov_values (or_nones ds fovs) (or_nones ds tss))
             else None) /\
  depths_of_samples self ds (or_nones ds fovs) (or_nones ds tss)
    (predicted_depth out).
Proof.
  unfold post_process_depth_estimation.
  destruct (length_differs ds fovs) eqn:Hf; [discriminate|].
  destruct (length_differs ds tss) eqn:Ht; [discriminate|].
  intros H.
  apply process_samples_spec in H as (Hfov & ys & Hpd & Hys);
    try (apply or_nones_length; assumption).
  simpl in Hfov, Hpd; subst ys.
  repeat split; try assumption.
  rewrite Hfov; destruct (is_Some fovs); reflexivity.
Qed.

Lemma process_samples_no_target self ds :
  forall acc,
    process_samples self acc ds (repeat None (length ds))
      (repeat None (length ds)) =
    Ok (mkOutputs (predicted_depth acc ++ map inverse_depth ds) (fov acc)).
Proof.
  induction ds as [|d ds IH]; intros acc; simpl.
  - rewrite app_nil_r; destruct acc; reflexivity.
  - rewrite IH; simpl. rewrite <- app_assoc; reflexivity.
Qed.

(** C1: for every sample of a call with no target sizes and no fovs, the
    output depth map has the shape of the input and each of its elements is
    the reciprocal of the input element clamped to [1e-4, 1e4]:
    output[i][j] = 1 / clamp(input[i][j], 1e-4, 1e4).  The call always
    returns. *)
Theorem C1_inverse_depth_elementwise self ds :
  exists out,
    post_process_depth_estimation self ds None None = Ok out /\
    length (predicted_depth out) = length ds /\
    forall n d, nth_error ds n = Some d ->
      exists y,
        nth_error (predicted_depth out) n = Some y /\
        shape y = shape d /\
        length (data y) = length (data d) /\
        (forall k, (k < length (data d))%nat ->
           nth k (data y) 0 = 1 / clamp (nth k (data d) 0) 1e-4 1e4) /\
        (forall H W i j,
           shape d = [H; W] -> wf_tensor d -> (i < H)%nat -> (j < W)%nat ->
           get2 y W i j = 1 / clamp (get2 d W i j) 1e-4 1e4).
Proof.
  exists (mkOutputs (map inverse_depth ds) None).
  split; [|split].
  - unfold post_process_depth_estimation; simpl.
    rewrite process_samples_no_target; reflexivity.
  - simpl; apply length_map.
  - intros n d Hd; simpl.
    exists (inverse_depth d).
    split; [rewrite nth_error_map, Hd; reflexivity|].
    split; [reflexivity|].
    split; [apply length_map|].
    split.
    + intros k Hk; exact (inverse_depth_nth d k Hk).
    + intros H W i j Hs Hwf Hi Hj; unfold get2.
      apply inverse_depth_nth.
      rewrite Hwf, Hs; simpl. nia.
Qed.

Lemma nth_error_combine {A B : Type} (la : list A) (lb : list B) (n : nat)
    (a : A) (b : B) :
  nth_error la n = Some a -> nth_error lb n = Some b ->
  nth_error (combine la lb) n = Some (a, b).
Proof.
  revert la lb; induction n as [|n IH]; intros [|x la] [|y lb] Ha Hb;
    simpl in *; try discriminate.
  - congruence.
  - auto.
Qed.

Lemma scale_depth_ratio (w : nat) (f : R) (d : tensor) :
  scale_depth w f d = tmap (fun x => x * (INR w / f)) d.
Proof.
  unfold scale_depth, tmap; f_equal.
  apply map_ext; intros x; unfold Rdiv; ring.
Qed.

(** C2: for every sample of a call with target sizes and fovs, the corrected
    focal scalar is f = 0.5 * targetWidth / tan(0.5 * radians(fov)); the raw
    depth map is multiplied element-wise by targetWidth / f, and it is this
    scaled map that is resized and then inverted; f is the sample's entry of
    the returned fov list. *)
Theorem C2_fov_scaling self ds fl tl out :
  post_process_depth_estimation self ds (Some fl) (Some tl) = Ok out ->
  exists fs,
    fov out = Some fs /\
    length fs = length ds /\
    length (predicted_depth out) = length ds /\
    forall n d v h w,
      nth_error ds n = Some d -> nth_error fl n = Some v ->
      nth_error tl n = Some (h, w) ->
      let f := 0.5 * INR w / tan (0.5 * deg2rad v) in
      nth_error fs n = Some f /\
      exists mode r,
        lookup_interpolation (Self.resample self) = Ok mode /\
        interpolate
          (unsqueeze 1 (unsqueeze 0 (tmap (fun x => x * (INR w / f)) d)))
          (h, w) mode (Self.antialias self) = Some r /\
        nth_error (predicted_depth out) n = Some (inverse_depth (squeeze r)).
Proof.
  intros H.
  apply post_process_spec in H as (Hlf & Hlt & Hfov & Hys).
  simpl in Hlf, Hlt, Hfov, Hys.
  rewrite negb_false_iff, Nat.eqb_eq in Hlf, Hlt.
  rewrite fov_values_Some in Hfov.
  eexists; split; [exact Hfov|].
  split; [rewrite length_map, length_combine; lia|].
  split; [eapply depths_of_samples_length; eassumption|].
  intros n d v h w Hd Hv Ht f.
  split.
  - rewrite nth_error_map, (nth_error_combine _ _ _ _ _ Hv Ht); reflexivity.
  - destruct (depths_of_samples_nth _ _ _ _ _ Hys n d (Some v) (Some (h, w)) Hd)
      as (y & Hy & Hrel).
    + rewrite nth_error_map, Hv; reflexivity.
    + rewrite nth_error_map, Ht; reflexivity.
    + simpl in Hrel. destruct Hrel as (mode & r & Hm & Hr & ->).
      exists mode, r. rewrite scale_depth_ratio in Hr.
      repeat split; assumption.
Qed.

(** *** Errors of the loop *)

Lemma bind_Err {A B : Type} (m : result A) (k : A -> result B) (e : error) :
  bind m k = Err e -> m = Err e \/ exists a, m = Ok a /\ k a = Err e.
Proof. destruct m as [a|e']; simpl; intros H; [right; eauto | left; congruence]. Qed.

Lemma lookup_interpolation_Err r e :
  lookup_interpolation r = Err e -> ~ is_ValueError e.
Proof.
  unfold lookup_interpolation.
  destruct r as [r|]; [destruct (pil_torch_interpolation_mapping r)|];
    intros H; inversion H; simpl; tauto.
Qed.

Lemma interpolate_depth_Err self d sz e :
  interpolate_depth self d sz = Err e -> ~ is_ValueError e.
Proof.
  unfold interpolate_depth; intros H.
  apply bind_Err in H as [H | (mode & _ & H)].
  - eapply lookup_interpolation_Err; eauto.
  - destruct (interpolate _ _ _ _); simpl in H; inversion H; simpl; tauto.
Qed.

Lemma process_sample_Err self acc d f t e :
  process_sample self acc d f t = Err e -> ~ is_ValueError e.
Proof.
  unfold process_sample; intros H.
  apply bind_Err in H as [H | ([d' acc'] & _ & H)]; [|discriminate].
  destruct t as [sz|]; [|discriminate].
  apply bind_Err in H as [H | ([d' acc'] & _ & H)].
  - destruct f as [v|]; [|discriminate].
    apply bind_Err in H as [H | (a & _ & H)]; [|discriminate].
    unfold append_fov in H; destruct (fov acc); inversion H; simpl; tauto.
  - apply bind_Err in H as [H | (a & _ & H)]; [|discriminate].
    eapply interpolate_depth_Err; eauto.
Qed.

Lemma process_samples_Err self ds :
  forall fs ts acc e,
    process_samples self acc ds fs ts = Err e -> ~ is_ValueError e.
Proof.
  induction ds as [|d ds IH]; intros fs ts acc e H; [discriminate|].
  destruct fs as [|f fs]; [discriminate|].
  destruct ts as [|t ts]; [discriminate|].
  simpl in H. apply bind_Err in H as [H | (mid & _ & H)].
  - eapply process_sample_Err; eauto.
  - eapply IH; eauto.
Qed.

Lemma length_differs_true {A B : Type} (l : list A) (o : option (list B)) :
  length_differs l o = true <->
  exists x, o = Some x /\ length x <> length l.
Proof.
  destruct o as [x|]; simpl.
  - rewrite negb_true_iff, Nat.eqb_neq; split.
    + intros H; exists x; split; [reflexivity | congruence].
    + intros (y & [= <-] & H); congruence.
  - split; [discriminate | intros (y & [=] & _)].
Qed.

(** C3: the call fails with the length-mismatch [ValueError] exactly when
    [fovs] is given with a length other than [len(predicted_depths)] or
    [target_sizes] is given with a length other than
    [len(predicted_depths)].  On a mismatch the result is the error alone,
    whatever the per-sample operations would do: the checks come first and
    no output is built. *)
Theorem C3_length_mismatch self ds (fovs : option (list R))
    (tss : option (list (nat * nat))) :
  let mismatch :=
    (exists fl, fovs = Some fl /\ length fl <> length ds) \/
    (exists tl, tss = Some tl /\ length tl <> length ds) in
  (mismatch ->
   post_process_depth_estimation self ds fovs tss =
   Err (ValueError length_mismatch_msg)) /\
  (forall msg,
     post_process_depth_estimation self ds fovs tss = Err (ValueError msg) ->
     mismatch /\ msg = length_mismatch_msg) /\
  (forall out,
     post_process_depth_estimation self ds fovs tss = Ok out -> ~ mismatch).
Proof.
  intros mismatch.
  assert (Hm : mismatch <->
               length_differs ds fovs = true \/ length_differs ds tss = true)
    by (unfold mismatch; rewrite !length_differs_true; tauto).
  unfold post_process_depth_estimation.
  destruct (length_differs ds fovs) eqn:Hf;
    [|destruct (length_differs ds tss) eqn:Ht].
  - split; [reflexivity|]. split.
    + intros msg [= <-]; split; [apply Hm; auto | reflexivity].
    + discriminate.
  - split; [reflexivity|]. split.
    + intros msg [= <-]; split; [apply Hm; auto | reflexivity].
    + discriminate.
  - split; [intros H; apply Hm in H as [H|H]; discriminate|]. split.
    + intros msg H. apply process_samples_Err in H. simpl in H; tauto.
    + intros out _ H; apply Hm in H as [H|H]; discriminate.
Qed.

Lemma or_nones_nth_error {A B : Type} (l : list A) (o : option (list B))
    (n : nat) (a : A) :
  length_differs l o = false -> nth_error l n = Some a ->
  nth_error (or_nones l o) n = Some (nth n (or_nones l o) None).
Proof.
  intros Hl Ha.
  apply nth_error_nth'.
  rewrite (or_nones_length l o Hl).
  apply nth_error_Some; congruence.
Qed.

Lemma or_nones_entries_length {A B : Type} (l : list A)
    (o : option (list (option B))) :
  length_differs l o = false -> length (or_nones_entries l o) = length l.
Proof.
  destruct o as [x|]; simpl.
  - rewrite negb_false_iff, Nat.eqb_eq; auto.
  - intros _; apply repeat_length.
Qed.

Lemma or_nones_entries_nth_error {A B : Type} (l : list A)
    (o : option (list (option B))) (n : nat) (a : A) :
  length_differs l o = false -> nth_error l n = Some a ->
  nth_error (or_nones_entries l o) n = Some (nth n (or_nones_entries l o) None).
Proof.
  intros Hl Ha.
  apply nth_error_nth'.
  rewrite (or_nones_entries_length l o Hl).
  apply nth_error_Some; congruence.
Qed.

(** The typed entry point is the per-sample one on sequences without [None]
    entries. *)
Lemma post_process_typed_is_per_sample self ds fovs tss :
  post_process_depth_estimation self ds fovs tss =
  post_process_depth_estimation_per_sample self ds
    (option_map (map Some) fovs) (option_map (map Some) tss).
Proof.
  unfold post_process_depth_estimation,
    post_process_depth_estimation_per_sample.
  destruct fovs as [fl|], tss as [tl|]; simpl; rewrite ?length_map;
    reflexivity.
Qed.

Lemma post_process_per_sample_spec self ds fovs tss out :
  post_process_depth_estimation_per_sample self ds fovs tss = Ok out ->
  length_differs ds fovs = false /\
  length_differs ds tss = false /\
  fov out = (if is_Some fovs
             then Some (fov_values (or_nones_entries ds fovs)
                          (or_nones_entries ds tss))
             else None) /\
  depths_of_samples self ds (or_nones_entries ds fovs)
    (or_nones_entries ds tss) (predicted_depth out).
Proof.
  unfold post_process_depth_estimation_per_sample.
  destruct (length_differs ds fovs) eqn:Hf; [discriminate|].
  destruct (length_differs ds tss) eqn:Ht; [discriminate|].
  intros H.
  apply process_samples_spec in H as (Hfov & ys & Hpd & Hys);
    try (apply or_nones_entries_length; assumption).
  simpl in Hfov, Hpd; subst ys.
  repeat split; try assumption.
  rewrite Hfov; destruct (is_Some fovs); reflexivity.
Qed.

Lemma fov_values_flat_map fs :
  forall ts,
    fov_values fs ts =
    flat_map
      (fun p : option R * option (nat * nat) =>
         match fst p, snd p with
         | Some v, Some sz => [0.5 * INR (snd sz) / tan (0.5 * deg2rad v)]
         | _, _ => []
         end)
      (combine fs ts).
Proof.
  induction fs as [|f fs IH]; intros [|t ts]; simpl; try reflexivity.
  rewrite IH; destruct t as [sz|], f as [v|]; reflexivity.
Qed.

Lemma fov_values_length fs :
  forall ts,
    length (fov_values fs ts) =
    length (filter (fun p : option R * option (nat * nat) =>
                      is_Some (fst p) && is_Some (snd p))
                   (combine fs ts)).
Proof.
  induction fs as [|f fs IH]; intros [|t ts]; simpl; try reflexivity.
  destruct t as [sz|], f as [v|]; simpl; rewrite IH; reflexivity.
Qed.

(** C4 (amended): the returned fov list is [None] as a whole when no [fovs]
    argument was supplied; when [fovs] is supplied it holds exactly one
    corrected value, 0.5 * width / tan(0.5 * radians(fov)), for each sample
    that has both a target size and a fov value, in input order, and nothing
    for the other samples; the [predicted_depth] list has exactly one entry
    per input sample, entry [n] being the processed sample [n]. *)
Theorem C4_fov_list_per_sample self ds fovs tss out :
  post_process_depth_estimation_per_sample self ds fovs tss = Ok out ->
  (fovs = None -> fov out = None) /\
  (forall fl, fovs = Some fl ->
     let samples := combine fl (or_nones_entries ds tss) in
     exists fs,
       fov out = Some fs /\
       fs = flat_map
              (fun p : option R * option (nat * nat) =>
                 match fst p, snd p with
                 | Some v, Some sz =>
                     [0.5 * INR (snd sz) / tan (0.5 * deg2rad v)]
                 | _, _ => []
                 end)
              samples /\
       length fs =
       length (filter (fun p : option R * option (nat * nat) =>
                         is_Some (fst p) && is_Some (snd p))
                      samples)) /\
  length (predicted_depth out) = length ds /\
  (forall n d,
     nth_error ds n = Some d ->
     exists y,
       nth_error (predicted_depth out) n = Some y /\
       depth_of_sample self d (nth n (or_nones_entries ds fovs) None)
         (nth n (or_nones_entries ds tss) None) y).
Proof.
  intros H.
  apply post_process_per_sample_spec in H as (Hlf & Hlt & Hfov & Hys).
  split; [intros ->; exact Hfov|].
  split.
  - intros fl -> samples; subst samples; simpl in Hfov.
    eexists; split; [exact Hfov|].
    split; [apply fov_values_flat_map | apply fov_values_length].
  - split; [eapply depths_of_samples_length; eassumption|].
    intros n d Hd.
    eapply depths_of_samples_nth; eauto using or_nones_entries_nth_error.
Qed.

Lemma squeeze_shape_2d (r : tensor) (h w : nat) :
  shape r = [1; 1; h; w]%nat -> h <> 1%nat -> w <> 1%nat ->
  shape (squeeze r) = [h; w].
Proof.
  intros Hs Hh Hw; unfold squeeze; simpl; rewrite Hs; simpl.
  apply Nat.eqb_neq in Hh, Hw; rewrite Hh, Hw; reflexivity.
Qed.

Lemma unsqueeze_twice_shape (d : tensor) (H W : nat) :
  shape d = [H; W] -> shape (unsqueeze 1 (unsqueeze 0 d)) = [1; 1; H; W]%nat.
Proof. intros Hs; unfold unsqueeze; simpl; rewrite Hs; reflexivity. Qed.

(** With a target size and no fov the raw map is resized with the
    processor's filter and antialias setting and then inverted; the result
    has the target shape when neither target dimension is one. *)
Lemma resize_then_invert self ds tl out :
  post_process_depth_estimation self ds None (Some tl) = Ok out ->
  forall n d h w,
    nth_error ds n = Some d -> nth_error tl n = Some (h, w) ->
    exists mode r,
      lookup_interpolation (Self.resample self) = Ok mode /\
      interpolate (unsqueeze 1 (unsqueeze 0 d)) (h, w) mode
        (Self.antialias self) = Some r /\
      nth_error (predicted_depth out) n = Some (inverse_depth (squeeze r)) /\
      (interpolate_shape_law ->
       forall H W, shape d = [H; W] ->
         shape (inverse_depth (squeeze r)) =
         filter (fun x => negb (Nat.eqb x 1)) [h; w]).
Proof.
  intros H n d h w Hd Ht.
  apply post_process_spec in H as (Hlf & Hlt & _ & Hys).
  simpl in Hys.
  destruct (depths_of_samples_nth _ _ _ _ _ Hys n d None (Some (h, w)) Hd)
    as (y & Hy & Hrel).
  - apply nth_error_repeat; apply nth_error_Some; congruence.
  - rewrite nth_error_map, Ht; reflexivity.
  - simpl in Hrel; destruct Hrel as (mode & r & Hm & Hr & ->).
    exists mode, r; repeat split; try assumption.
    intros Hlaw H0 W0 Hs.
    rewrite inverse_depth_shape; unfold squeeze; simpl.
    rewrite (Hlaw _ _ _ _ _ _ _ _ _ Hr (unsqueeze_twice_shape d H0 W0 Hs)).
    reflexivity.
Qed.

(** C5 (shape, at a target height of one): when [interpolate] returns the
    documented (B, C, h, w) shape, a sample resized to the target size
    (1, w) with w other than one comes out with the one-dimensional shape
    (w), not (1, w): the argument-free [.squeeze()] of line 380 removes the
    target axis of size one together with the two axes added for the
    call. *)
Theorem C5_unit_height_is_squeezed self d H W w out :
  interpolate_shape_law ->
  shape d = [H; W] -> w <> 1%nat ->
  post_process_depth_estimation self [d] None (Some [(1%nat, w)]) = Ok out ->
  exists y,
    predicted_depth out = [y] /\ shape y = [w] /\ shape y <> [1%nat; w].
Proof.
  intros Hlaw Hs Hw Hout.
  destruct (resize_then_invert _ _ _ _ Hout 0%nat d 1%nat w eq_refl eq_refl)
    as (mode & r & _ & _ & Hy & Hshape).
  specialize (Hshape Hlaw H W Hs).
  apply post_process_spec in Hout as (_ & _ & _ & Hys).
  apply depths_of_samples_length in Hys.
  destruct (predicted_depth out) as [|y [|y' ys]]; try discriminate.
  simpl in Hy; injection Hy as ->.
  eexists; split; [reflexivity|].
  simpl in Hshape. apply Nat.eqb_neq in Hw. rewrite Hw in Hshape; simpl in Hshape.
  simpl; rewrite Hshape; split; [reflexivity | discriminate].
Qed.

(** C10: every element of every depth map returned by a successful call
    lies in [1e-4, 1e4], whatever the inputs and whatever the resampler
    returns. *)
Theorem C10_output_range self ds fovs tss out :
  post_process_depth_estimation self ds fovs tss = Ok out ->
  Forall (fun y => Forall (fun x => 1e-4 <= x <= 1e4) (data y))
    (predicted_depth out).
Proof.
  intros H.
  apply post_process_spec in H as (_ & _ & _ & Hys).
  induction Hys as [|d f t y ds' fs ts ys Hy _ IH]; constructor; [|exact IH].
  apply depth_of_sample_inverse in Hy as (x & ->).
  exact (inverse_depth_range x).
Qed.

(** ** Building the transforms *)

Lemma hwc_index_at (H W C c h w : nat) :
  (h < H)%nat -> (w < W)%nat ->
  hwc_index H W C ((c * H + h) * W + w) = ((h * W + w) * C + c)%nat.
Proof.
  intros Hh Hw; unfold hwc_index.
  assert (HW : W <> 0%nat) by lia.
  assert (HH : H <> 0%nat) by lia.
  assert (E1 : (((c * H + h) * W + w) / W = c * H + h)%nat).
  { rewrite Nat.div_add_l by exact HW.
    rewrite Nat.div_small by exact Hw. lia. }
  assert (E2 : (((c * H + h) * W + w) mod W = w)%nat).
  { rewrite Nat.add_comm, Nat.Div0.mod_add. apply Nat.mod_small; exact Hw. }
  assert (E3 : ((c * H + h) mod H = h)%nat).
  { rewrite Nat.add_comm, Nat.Div0.mod_add. apply Nat.mod_small; exact Hh. }
  assert (E4 : (((c * H + h) * W + w) / (H * W) = c)%nat).
  { replace ((c * H + h) * W + w)%nat with (c * (H * W) + (h * W + w))%nat
      by lia.
    rewrite Nat.div_add_l by lia.
    rewrite Nat.div_small by (apply flat_index_lt; assumption). lia. }
  rewrite E1, E2, E3, E4; reflexivity.
Qed.

(** The conversion only moves elements: entry (c, h, w) of the tensor is
    entry (h, w, c) of the image. *)
Lemma hwc_to_chw_spec (t x : tensor) :
  hwc_to_chw t = Ok x ->
  exists H W C,
    shape t = [H; W; C] /\ shape x = [C; H; W] /\
    forall c h w, (c < C)%nat -> (h < H)%nat -> (w < W)%nat ->
      nth ((c * H + h) * W + w) (data x) 0 =
      nth ((h * W + w) * C + c) (data t) 0.
Proof.
  unfold hwc_to_chw.
  destruct (shape t) as [|H [|W [|C [|? ?]]]]; try discriminate.
  intros [= <-]; exists H, W, C; simpl.
  split; [reflexivity|]. split; [reflexivity|].
  intros c h w Hc Hh Hw.
  set (k := ((c * H + h) * W + w)%nat).
  assert (Hk : (k < C * H * W)%nat)
    by (unfold k; auto using flat_index_lt).
  rewrite nth_indep with (d' := nth (hwc_index H W C 0) (data t) 0)
    by (rewrite length_map, length_seq; exact Hk).
  rewrite (map_nth (fun k => nth (hwc_index H W C k) (data t) 0)).
  rewrite seq_nth by exact Hk; simpl.
  unfold k; rewrite hwc_index_at by assumption; reflexivity.
Qed.

Ltac case_index i :=
  destruct i as [|[|[|[|i]]]]; simpl in *; try discriminate.

Lemma build_transforms_Ok do_resize size resample antialias do_rescale
    rescale_factor do_normalize image_mean image_std image_type ts :
  _build_transforms do_resize size resample antialias do_rescale
    rescale_factor do_normalize image_mean image_std image_type = Ok ts ->
  exists rsz,
    ts = conversion_steps image_type
         ++ scaling_steps do_rescale do_normalize rescale_factor
              image_mean image_std
         ++ rsz /\
    (if do_resize
     then exists m,
            lookup_interpolation resample = Ok m /\
            rsz = [Resize (height size, width size) m antialias]
     else rsz = []).
Proof.
  unfold _build_transforms; intros H.
  destruct do_resize.
  - apply bind_Ok in H as (m & Hm & H).
    exists [Resize (height size, width size) m antialias].
    split; [|eauto].
    injection H as <-.
    destruct image_type, do_rescale, do_normalize; reflexivity.
  - exists []; split; [|reflexivity].
    injection H as <-.
    destruct image_type, do_rescale, do_normalize; reflexivity.
Qed.

(** C6: [_build_transforms] returns the steps in a fixed order: a conversion
    to a tensor exactly when the input type is [PIL] or [NUMPY] (a step that
    moves the values without changing them), then the one scaling step
    selected by [do_rescale] / [do_normalize] (fused, rescale, normalize or
    none), then a resize step exactly when [do_resize] is set.  A conversion
    precedes every other step and a scaling step precedes the resize step.
    The function fails only when [do_resize] is set and the resample filter
    has no entry in the interpolation table. *)
Theorem C6_transform_order do_resize size resample antialias do_rescale
    rescale_factor do_normalize image_mean image_std image_type :
  let built :=
    _build_transforms do_resize size resample antialias do_rescale
      rescale_factor do_normalize image_mean image_std image_type in
  (forall ts,
     built = Ok ts ->
     exists rsz,
       ts = conversion_steps image_type
            ++ scaling_steps do_rescale do_normalize rescale_factor
                 image_mean image_std
            ++ rsz /\
       (if do_resize
        then exists m,
               lookup_interpolation resample = Ok m /\
               rsz = [Resize (height size, width size) m antialias]
        else rsz = []) /\
       (forall i j a b,
          nth_error ts i = Some a -> nth_error ts j = Some b ->
          (is_conversion a = true -> is_conversion b = false -> (i < j)%nat) /\
          (is_scaling a = true -> is_resize b = true -> (i < j)%nat))) /\
  (conversion_steps image_type <> [] <->
   image_type = PIL \/ image_type = NUMPY) /\
  (forall step img x,
     In step (conversion_steps image_type) ->
     apply_transform step img = Ok x ->
     kind x = TORCH /\
     exists H W C,
       shape (array img) = [H; W; C] /\ shape (array x) = [C; H; W] /\
       forall c h w, (c < C)%nat -> (h < H)%nat -> (w < W)%nat ->
         nth ((c * H + h) * W + w) (data (array x)) 0 =
         nth ((h * W + w) * C + c) (data (array img)) 0) /\
  (forall e,
     built = Err e ->
     do_resize = true /\ lookup_interpolation resample = Err e).
Proof.
  intros built; unfold built; clear built.
  split; [|split; [|split]].
  - intros ts H.
    destruct (build_transforms_Ok _ _ _ _ _ _ _ _ _ _ _ H) as (rsz & -> & Hr).
    exists rsz; split; [reflexivity|]. split; [exact Hr|].
    intros i j a b Hi Hj.
    destruct do_resize; [destruct Hr as (m & _ & ->) | subst rsz];
      destruct image_type, do_rescale, do_normalize; simpl in Hi, Hj;
      case_index i; case_index j;
      injection Hi as <-; injection Hj as <-; simpl;
      split; intros; (lia || discriminate).
  - destruct image_type; simpl; split; intros H; try congruence; auto;
      destruct H; discriminate.
  - intros step img x Hin Hx.
    assert (Hconv : exists src,
               hwc_to_chw (array img) = Ok src /\ x = mkImage TORCH src).
    { destruct image_type; simpl in Hin; try contradiction;
        destruct Hin as [<-|[]]; simpl in Hx;
        destruct (kind img); try discriminate;
        apply bind_Ok in Hx as (src & Hsrc & [= <-]); eauto. }
    destruct Hconv as (src & Hsrc & ->); simpl.
    split; [reflexivity|].
    apply hwc_to_chw_spec; exact Hsrc.
  - intros e H; unfold _build_transforms in H.
    destruct do_resize; [|discriminate].
    split; [reflexivity|].
    apply bind_Err in H as [H | (m & _ & H)]; [exact H | discriminate].
Qed.

(** ** Rescale, normalize and their fusion *)

Lemma map_combine_map_r {A B C D : Type} (F : A * C -> D) (g : B -> C)
    (s : list A) (l : list B) :
  map F (combine s (map g l)) =
  map (fun p => F (fst p, g (snd p))) (combine s l).
Proof.
  revert s; induction l as [|x l IH]; intros [|a s]; simpl; auto.
  f_equal; apply IH.
Qed.

Lemma mapi_map (f : nat -> R -> R) (g : R -> R) (l : list R) :
  mapi f (map g l) = mapi (fun k x => f k (g x)) l.
Proof.
  unfold mapi; rewrite length_map.
  apply (map_combine_map_r (fun p => f (fst p) (snd p)) g).
Qed.

Lemma mapi_length (f : nat -> R -> R) (l : list R) :
  length (mapi f l) = length l.
Proof.
  unfold mapi; rewrite length_map, length_combine, length_seq; lia.
Qed.

Lemma mapi_nth (f : nat -> R -> R) (l : list R) (k : nat) :
  (k < length l)%nat -> nth k (mapi f l) 0 = f k (nth k l 0).
Proof.
  intros Hk; unfold mapi.
  rewrite nth_indep with (d' := (fun p => f (fst p) (snd p)) (0%nat, 0))
    by (rewrite length_map, length_combine, length_seq; lia).
  rewrite (map_nth (fun p => f (fst p) (snd p))).
  rewrite combine_nth by apply length_seq.
  rewrite seq_nth by exact Hk; reflexivity.
Qed.

Lemma fused_is_rescale_then_normalize mean std rf (t : tensor) :
  fused_rescale_normalize mean std rf t =
  (y <- rescale rf t ;; normalize mean std y).
Proof.
  unfold fused_rescale_normalize, rescale, normalize.
  destruct rf as [r|]; simpl; [|reflexivity].
  destruct (shape t) as [|C [|H [|W [|? ?]]]]; try reflexivity.
  destruct (channel_stats mean C) as [m|]; simpl; [|reflexivity].
  destruct (channel_stats std C) as [s|]; simpl; [|reflexivity].
  unfold map_channels, tmap; simpl.
  rewrite mapi_map; reflexivity.
Qed.

(** C7: the fused step, which computes (x * r - mean) / std per channel,
    gives the same result as the rescale step x * r followed by the
    normalize step (y - mean) / std, on every image, for every mean, std
    (zero or not) and rescale factor; the two pipelines also fail on the same
    inputs. *)
Theorem C7_fused_rescale_normalize mean std rf :
  (forall img,
     Compose [FusedRescaleNormalize mean std rf] img =
     Compose [Rescale rf; Normalize mean std] img) /\
  (forall r t out,
     fused_rescale_normalize mean std (Some r) t = Ok out ->
     exists C H W m s,
       shape t = [C; H; W] /\ shape out = [C; H; W] /\
       channel_stats mean C = Ok m /\ channel_stats std C = Ok s /\
       forall k, (k < length (data t))%nat ->
         let c := (k / (H * W))%nat in
         nth k (data out) 0 = (nth k (data t) 0 * r - m c) / s c).
Proof.
  split.
  - intros img; simpl.
    destruct (as_tensor img) as [x|e] eqn:Hx; simpl; [|reflexivity].
    rewrite fused_is_rescale_then_normalize.
    destruct (rescale rf x) as [y|e]; simpl; [|reflexivity].
    destruct (normalize mean std y); reflexivity.
  - intros r t out H; unfold fused_rescale_normalize in H.
    destruct (shape t) as [|C [|H0 [|W [|? ?]]]] eqn:Hs; try discriminate.
    apply bind_Ok in H as (m & Hm & H).
    apply bind_Ok in H as (s & Hsd & H).
    injection H as <-.
    exists C, H0, W, m, s; simpl.
    repeat split; try assumption.
    intros k Hk.
    apply (mapi_nth (fun k x => (x * r - m (k / (H0 * W))%nat)
                                / s (k / (H0 * W))%nat)); assumption.
Qed.

(** ** Validation in [preprocess] *)

Lemma option_string_eqb_false (o : option string) (s : string) :
  option_string_eqb o s = false <-> o <> Some s.
Proof.
  destruct o as [x|]; simpl.
  - rewrite String.eqb_neq; split; congruence.
  - split; [discriminate | reflexivity].
Qed.

Lemma is_None_true {A : Type} (o : option A) : is_None o = true <-> o = None.
Proof. destruct o; simpl; split; congruence. Qed.

Lemma validate_spec return_tensors do_resize size resample antialias
    do_rescale rescale_factor do_normalize image_mean image_std data_format
    image_type :
  let r :=
    _validate_input_arguments return_tensors do_resize size resample
      antialias do_rescale rescale_factor do_normalize image_mean image_std
      data_format image_type in
  (invalid_arguments return_tensors do_resize size resample antialias
     do_rescale rescale_factor do_normalize image_mean image_std data_format ->
   exists msg, r = Err (ValueError msg)) /\
  (~ invalid_arguments return_tensors do_resize size resample antialias
       do_rescale rescale_factor do_normalize image_mean image_std data_format ->
   r = Ok tt).
Proof.
  intros r; subst r; unfold invalid_arguments, _validate_input_arguments.
  rewrite <- option_string_eqb_false, <- String.eqb_neq.
  rewrite <- !is_None_true, <- !orb_true_iff, <- !andb_true_iff, !orb_assoc.
  destruct (option_string_eqb return_tensors "pt"); simpl;
    [|split; [eauto | tauto]].
  destruct (String.eqb data_format ChannelDimension_FIRST); simpl;
    [|split; [eauto | tauto]].
  destruct (do_resize && (is_None size || is_None resample || is_None antialias));
    simpl; [split; [eauto | tauto]|].
  destruct (do_rescale && is_None rescale_factor);
    simpl; [split; [eauto | tauto]|].
  destruct (do_normalize && (is_None image_mean || is_None image_std));
    simpl; [split; [eauto | tauto]|].
  split; [intros H; exfalso; intuition congruence | reflexivity].
Qed.

(** C8 (for a non-empty batch): [preprocess] fails with a [ValueError],
    whatever the transforms would do to the images, whenever, after merging
    the overrides onto the defaults, the requested tensor backend is not
    "pt", the requested data format is not channel-first, [do_resize] is set
    but resample or antialias is unset, [do_rescale] is set but the rescale
    factor is unset, or the detected type of the first image is not one of
    [PIL], [TORCH], [NUMPY].  (After merging, size, image mean and image std
    are always set; [_validate_input_arguments] itself raises the same
    [ValueError] when it is handed one of them unset, and returns normally on
    every other argument list.) *)
Theorem C8_invalid_arguments_nonempty_batch self first rest do_resize size
    resample antialias do_rescale rescale_factor do_normalize image_mean
    image_std return_tensors data_format :
  (invalid_arguments return_tensors
     (or_default do_resize (Self.do_resize self))
     (Some (or_default size (Self.size self)))
     (or_else resample (Self.resample self))
     (or_else antialias (Self.antialias self))
     (or_default do_rescale (Self.do_rescale self))
     (or_else rescale_factor (Self.rescale_factor self))
     (or_default do_normalize (Self.do_normalize self))
     (Some (or_default image_mean (Self.image_mean self)))
     (Some (or_default image_std (Self.image_std self)))
     data_format \/
   supported_image_type (get_image_type first) = false ->
   exists msg,
     preprocess self (first :: rest) do_resize size resample antialias
       do_rescale rescale_factor do_normalize image_mean image_std
       return_tensors data_format = Err (ValueError msg)) /\
  (forall rt dr sz rs aa dc rf dn mean std df ty,
     (invalid_arguments rt dr sz rs aa dc rf dn mean std df ->
      exists msg,
        _validate_input_arguments rt dr sz rs aa dc rf dn mean std df ty =
        Err (ValueError msg)) /\
     (~ invalid_arguments rt dr sz rs aa dc rf dn mean std df ->
      _validate_input_arguments rt dr sz rs aa dc rf dn mean std df ty =
      Ok tt)).
Proof.
  split.
  - intros H; unfold preprocess.
    destruct (supported_image_type (get_image_type first)) eqn:Hty; simpl;
      [|eauto].
    destruct H as [H|H]; [|discriminate].
    eapply validate_spec in H. destruct H as (msg & ->); simpl; eauto.
  - intros; apply validate_spec.
Qed.

(** ** Shapes through [preprocess] *)

Lemma Compose_app (a b : list transform) (img : image) :
  Compose (a ++ b) img = (x <- Compose a img ;; Compose b x).
Proof.
  revert img; induction a as [|t a IH]; intros img; simpl; [reflexivity|].
  destruct (apply_transform t img); simpl; auto.
Qed.

Lemma as_tensor_Ok (img : image) (t : tensor) :
  as_tensor img = Ok t -> kind img = TORCH /\ t = array img.
Proof.
  unfold as_tensor; destruct (kind img); intros H; inversion H; auto.
Qed.

Lemma conversion_shape ty img x C H W :
  kind img = ty -> supported_image_type ty = true ->
  image_chw img = Some (C, H, W) ->
  Compose (conversion_steps ty) img = Ok x ->
  kind x = TORCH /\ shape (array x) = [C; H; W].
Proof.
  unfold image_chw; intros Hk Hsup Hchw Hx; rewrite Hk in Hchw.
  destruct ty; simpl in Hx; try discriminate.
  - rewrite Hk in Hx.
    apply bind_Ok in Hx as (y & Hy & Hx).
    apply bind_Ok in Hy as (src & Hsrc & [= <-]).
    injection Hx as <-; simpl.
    apply hwc_to_chw_spec in Hsrc as (H' & W' & C' & Hs & Hs' & _).
    rewrite Hs in Hchw; injection Hchw as -> -> ->; auto.
  - injection Hx as <-.
    destruct (shape (array img)) as [|a [|b [|c [|? ?]]]]; try discriminate.
    injection Hchw as -> -> ->; auto.
  - rewrite Hk in Hx.
    apply bind_Ok in Hx as (y & Hy & Hx).
    apply bind_Ok in Hy as (src & Hsrc & [= <-]).
    injection Hx as <-; simpl.
    apply hwc_to_chw_spec in Hsrc as (H' & W' & C' & Hs & Hs' & _).
    rewrite Hs in Hchw; injection Hchw as -> -> ->; auto.
Qed.

Lemma fused_shape mean std rf t y :
  fused_rescale_normalize mean std rf t = Ok y -> shape y = shape t.
Proof.
  unfold fused_rescale_normalize; destruct rf; [|discriminate].
  destruct (shape t) as [|a [|b [|c [|? ?]]]] eqn:Hs; try discriminate.
  intros H; monad_inv; simpl; assumption.
Qed.

Lemma normalize_shape mean std t y :
  normalize mean std t = Ok y -> shape y = shape t.
Proof.
  unfold normalize.
  destruct (shape t) as [|a [|b [|c [|? ?]]]] eqn:Hs; try discriminate.
  intros H; monad_inv; simpl; assumption.
Qed.

Lemma rescale_shape rf t y : rescale rf t = Ok y -> shape y = shape t.
Proof. unfold rescale; destruct rf; intros H; inversion H; reflexivity. Qed.

Lemma scaling_shape do_rescale do_normalize rf mean std img y s :
  kind img = TORCH -> shape (array img) = s ->
  Compose (scaling_steps do_rescale do_normalize rf mean std) img = Ok y ->
  kind y = TORCH /\ shape (array y) = s.
Proof.
  intros Hk Hs Hy.
  destruct do_rescale, do_normalize;
    cbn [scaling_steps Compose apply_transform] in Hy;
    monad_inv; simpl;
    repeat match goal with
    | H : fused_rescale_normalize _ _ _ _ = Ok _ |- _ => apply fused_shape in H
    | H : rescale _ _ = Ok _ |- _ => apply rescale_shape in H
    | H : normalize _ _ _ = Ok _ |- _ => apply normalize_shape in H
    | H : as_tensor _ = Ok _ |- _ => apply as_tensor_Ok in H as (_ & ->)
    end;
    (split; [reflexivity || assumption | congruence]).
Qed.

(** The shape of one transformed image. *)
Lemma Compose_built_shape do_resize size resample antialias do_rescale
    rescale_factor do_normalize image_mean image_std image_type ts img y
    C H W :
  tv_resize_shape_law ->
  _build_transforms do_resize size resample antialias do_rescale
    rescale_factor do_normalize image_mean image_std image_type = Ok ts ->
  kind img = image_type -> supported_image_type image_type = true ->
  image_chw img = Some (C, H, W) ->
  Compose ts img = Ok y ->
  shape (array y) =
  if do_resize then [C; height size; width size] else [C; H; W].
Proof.
  intros Hlaw Hts Hk Hsup Hchw Hy.
  apply build_transforms_Ok in Hts as (rsz & -> & Hr).
  rewrite Compose_app in Hy.
  apply bind_Ok in Hy as (x1 & Hx1 & Hy).
  rewrite Compose_app in Hy.
  apply bind_Ok in Hy as (x2 & Hx2 & Hy).
  destruct (conversion_shape _ _ _ _ _ _ Hk Hsup Hchw Hx1) as (Hk1 & Hs1).
  destruct (scaling_shape _ _ _ _ _ _ _ _ Hk1 Hs1 Hx2) as (Hk2 & Hs2).
  destruct do_resize.
  - destruct Hr as (m & _ & ->); simpl in Hy.
    monad_inv.
    match goal with
    | H : tv_resize _ _ _ _ = Some _ |- _ =>
        exact (Hlaw _ _ _ _ _ _ _ _ H Hk2 Hs2)
    end.
  - subst rsz; simpl in Hy; injection Hy as <-; exact Hs2.
Qed.

Lemma shape_eqb_eq (a b : list nat) : shape_eqb a b = true -> a = b.
Proof. unfold shape_eqb; destruct (list_eq_dec Nat.eq_dec a b); congruence. Qed.

(** What [torch.stack] returns. *)
Lemma torch_stack_spec (imgs : list image) (pv : tensor) :
  torch_stack imgs = Ok pv ->
  exists y0 rest,
    imgs = y0 :: rest /\
    shape pv = length imgs :: shape (array y0) /\
    data pv = concat (map (fun y => data (array y)) imgs) /\
    Forall (fun y => kind y = TORCH /\ shape (array y) = shape (array y0)) imgs.
Proof.
  unfold torch_stack; intros H.
  apply bind_Ok in H as (ts & Hts & H).
  assert (Hall : Forall (fun y => kind y = TORCH) imgs /\
                 ts = map array imgs).
  { clear H; revert ts Hts; induction imgs as [|y imgs IH]; simpl; intros ts H.
    - injection H as <-; split; [constructor | reflexivity].
    - monad_inv.
      match goal with
      | H1 : as_tensor _ = Ok _, H2 : mapM _ _ = Ok _ |- _ =>
          apply as_tensor_Ok in H1 as (Hk & ->);
          apply IH in H2 as (Hf & ->)
      end.
      split; [constructor; assumption | reflexivity]. }
  destruct Hall as (Hkinds & ->).
  destruct imgs as [|y0 rest]; [discriminate|].
  simpl in H.
  destruct (forallb _ _) eqn:Hshapes; [|discriminate].
  injection H as <-; simpl.
  exists y0, rest; split; [reflexivity|].
  split; [rewrite length_map; reflexivity|].
  split; [rewrite map_map; reflexivity|].
  inversion Hkinds as [|? ? Hk0 Hkrest]; subst.
  constructor; [split; [assumption | reflexivity]|].
  rewrite forallb_forall in Hshapes.
  rewrite Forall_forall in Hkrest |- *.
  intros y Hy; split; [auto|].
  apply shape_eqb_eq, Hshapes, in_map; exact Hy.
Qed.

(** C9: a successful call builds one composed transform, applies it to every
    image of the batch, stacks the results along a new leading axis and
    returns the stack under the key "pixel_values".  For N input images of C
    channels the stacked tensor has shape (N, C, height, width) of the
    requested size when resizing is enabled and (N, C, H, W) of the input
    images otherwise. *)
Theorem C9_preprocess_batch self images do_resize size resample antialias
    do_rescale rescale_factor do_normalize image_mean image_std
    return_tensors data_format bf :
  tv_resize_shape_law ->
  preprocess self images do_resize size resample antialias do_rescale
    rescale_factor do_normalize image_mean image_std return_tensors
    data_format = Ok bf ->
  let do_resize' := or_default do_resize (Self.do_resize self) in
  let size' := or_default size (Self.size self) in
  exists first rest transforms transformed pixel_values,
    images = first :: rest /\
    get_transforms do_resize' size'
      (or_else resample (Self.resample self))
      (or_else antialias (Self.antialias self))
      (or_default do_rescale (Self.do_rescale self))
      (or_else rescale_factor (Self.rescale_factor self))
      (or_default do_normalize (Self.do_normalize self))
      (or_default image_mean (Self.image_mean self))
      (or_default image_std (Self.image_std self))
      (get_image_type first) = Ok transforms /\
    mapM (Compose transforms) images = Ok transformed /\
    torch_stack transformed = Ok pixel_values /\
    bf = mkBatchFeature [("pixel_values"%string, pixel_values)] return_tensors /\
    data pixel_values = concat (map (fun y => data (array y)) transformed) /\
    forall img C H W,
      In img images -> kind img = kind first ->
      image_chw img = Some (C, H, W) ->
      shape pixel_values =
      length images ::
        (if do_resize' then [C; height size'; width size'] else [C; H; W]).
Proof.
  intros Hlaw Hpre do_resize' size'; unfold preprocess in Hpre.
  destruct images as [|first rest]; [discriminate|].
  destruct (supported_image_type (get_image_type first)) eqn:Hsup;
    cbn [negb] in Hpre; [|discriminate].
  apply bind_Ok in Hpre as (u & _ & Hpre).
  apply bind_Ok in Hpre as (T & HT & Hpre).
  apply bind_Ok in Hpre as (ys & Hys & Hpre).
  apply bind_Ok in Hpre as (pv & Hpv & Hpre).
  injection Hpre as <-.
  exists first, rest, T, ys, pv.
  repeat (split; [first [reflexivity | assumption]|]).
  destruct (torch_stack_spec _ _ Hpv) as (y0 & ys' & Hys' & Hshape & Hdata & Hall).
  split; [exact Hdata|].
  intros img C H W Hin Hk Hchw.
  apply In_nth_error in Hin as (n & Hn).
  destruct (mapM_nth_error _ _ _ n img Hys Hn) as (y & Hy & Hcomp).
  rewrite Forall_forall in Hall.
  destruct (Hall y (nth_error_In _ _ Hy)) as (_ & Hsame).
  rewrite Hshape, (mapM_length _ _ _ Hys), <- Hsame.
  f_equal.
  exact (Compose_built_shape _ _ _ _ _ _ _ _ _ _ _ _ _ _ _ _ Hlaw HT Hk Hsup
           Hchw Hcomp).
Qed.

(** ** The loop as a map over the samples *)

Lemma process_sample_eq self acc d f t :
  (fov acc = None -> f = None) ->
  process_sample self acc d f t =
  (y <- sample_depth self d f t ;;
   Ok (mkOutputs (predicted_depth acc ++ [y])
         (option_map (fun l => l ++ fov_values [f] [t]) (fov acc)))).
Proof.
  intros Hf.
  unfold process_sample, sample_depth, append_fov, append_depth.
  destruct t as [sz|]; destruct f as [v|]; simpl.
  - destruct (fov acc) as [l|] eqn:Hl;
      [|specialize (Hf eq_refl); discriminate].
    simpl. destruct (interpolate_depth self _ sz); reflexivity.
  - destruct (interpolate_depth self d sz); simpl;
      rewrite ?option_map_app_nil; reflexivity.
  - rewrite option_map_app_nil; reflexivity.
  - rewrite option_map_app_nil; reflexivity.
Qed.

Lemma process_samples_eq self ds :
  forall fs ts acc,
    length fs = length ds -> length ts = length ds ->
    (fov acc = None -> Forall (fun f => f = None) fs) ->
    process_samples self acc ds fs ts =
    (ys <- sample_depths self ds fs ts ;;
     Ok (mkOutputs (predicted_depth acc ++ ys)
           (option_map (fun l => l ++ fov_values fs ts) (fov acc)))).
Proof.
  induction ds as [|d ds IH]; intros fs ts acc Hlf Hlt Hnone.
  - destruct fs; [|discriminate]. destruct ts; [|discriminate].
    simpl. rewrite app_nil_r, option_map_app_nil. destruct acc; reflexivity.
  - destruct fs as [|f fs]; [discriminate|].
    destruct ts as [|t ts]; [discriminate|].
    cbn [process_samples sample_depths].
    rewrite process_sample_eq
      by (intros H; specialize (Hnone H); inversion Hnone; assumption).
    destruct (sample_depth self d f t) as [y|e]; [|reflexivity].
    cbn [bind].
    rewrite IH; cbn [predicted_depth fov]; try (simpl in *; lia).
    + destruct (sample_depths self ds fs ts) as [ys|e]; [|reflexivity].
      cbn [bind]. rewrite <- app_assoc. cbn [app].
      rewrite (fov_values_cons f t fs ts).
      destruct (fov acc); cbn [option_map]; [rewrite app_assoc|]; reflexivity.
    + intros H. destruct (fov acc) eqn:Hacc; [discriminate|].
      specialize (Hnone eq_refl); inversion Hnone; assumption.
Qed.

Lemma or_nones_all_None {A B : Type} (l : list A) :
  Forall (fun f : option B => f = None) (or_nones l (@None (list B))).
Proof. simpl; apply Forall_forall; intros f Hf; apply repeat_spec in Hf; exact Hf. Qed.

(** A call that passes the length checks is a map of [sample_depth] over
    the samples. *)
Lemma post_process_eq self ds fovs tss :
  length_differs ds fovs = false -> length_differs ds tss = false ->
  post_process_depth_estimation self ds fovs tss =
  (ys <- sample_depths self ds (or_nones ds fovs) (or_nones ds tss) ;;
   Ok (mkOutputs ys
         (if is_Some fovs
          then Some (fov_values (or_nones ds fovs) (or_nones ds tss))
          else None))).
Proof.
  intros Hf Ht; unfold post_process_depth_estimation; rewrite Hf, Ht.
  rewrite process_samples_eq; try (apply or_nones_length; assumption).
  - destruct (sample_depths self ds _ _); [|reflexivity].
    destruct fovs; reflexivity.
  - destruct fovs; simpl; [discriminate|].
    intros _; apply (or_nones_all_None (B := R) ds).
Qed.

Lemma sample_depths_no_target self ds :
  forall fs, length fs = length ds ->
    sample_depths self ds fs (repeat None (length ds)) =
    Ok (map inverse_depth ds).
Proof.
  induction ds as [|d ds IH]; intros [|f fs] Hl; try discriminate;
    simpl; [reflexivity|].
  rewrite IH by (simpl in Hl; lia); reflexivity.
Qed.

(** X4: without target sizes the fov values play no part: whenever the
    length check on [fovs] passes, the call returns the element-wise inverse
    of every input map, exactly as a call without fovs does, and the fov
    list is empty (or [None] when no fovs were given). *)
Theorem fovs_ignored_without_target_sizes self ds fovs :
  length_differs ds fovs = false ->
  post_process_depth_estimation self ds fovs None =
  Ok (mkOutputs (map inverse_depth ds) (if is_Some fovs then Some [] else None)).
Proof.
  intros Hf.
  rewrite post_process_eq by (assumption || reflexivity).
  cbn [or_nones].
  rewrite sample_depths_no_target by (apply or_nones_length; assumption).
  cbn [bind]. rewrite fov_values_None_r; reflexivity.
Qed.

(** ** The inverse-depth transform on values *)

Lemma clamp_below (x : R) : x <= clamp_min -> clamp x clamp_min clamp_max = clamp_min.
Proof.
  unfold clamp, clamp_min, clamp_max, Rmin, Rmax; intros Hx.
  destruct (Rle_dec x 1e-4); destruct (Rle_dec _ 1e4); lra.
Qed.

Lemma clamp_above (x : R) : clamp_max <= x -> clamp x clamp_min clamp_max = clamp_max.
Proof.
  unfold clamp, clamp_min, clamp_max, Rmin, Rmax; intros Hx.
  destruct (Rle_dec x 1e-4); destruct (Rle_dec _ 1e4); lra.
Qed.

Lemma clamp_inside (x : R) :
  clamp_min <= x <= clamp_max -> clamp x clamp_min clamp_max = x.
Proof.
  unfold clamp, clamp_min, clamp_max, Rmin, Rmax; intros Hx.
  destruct (Rle_dec x 1e-4); destruct (Rle_dec _ 1e4); lra.
Qed.

Lemma clamp_pos (x : R) : 0 < clamp x clamp_min clamp_max.
Proof.
  unfold clamp, clamp_min, clamp_max, Rmin, Rmax.
  destruct (Rle_dec x 1e-4); destruct (Rle_dec _ 1e4); lra.
Qed.

Lemma clamp_monotone (x y : R) :
  x <= y -> clamp x clamp_min clamp_max <= clamp y clamp_min clamp_max.
Proof.
  unfold clamp, clamp_min, clamp_max, Rmin, Rmax; intros Hxy.
  destruct (Rle_dec x 1e-4); destruct (Rle_dec y 1e-4);
    repeat match goal with |- context [Rle_dec ?a ?b] => destruct (Rle_dec a b) end;
    lra.
Qed.

(** X1: the transform of line 383 saturates instead of dividing by zero or by
    a negative number: an element at or below 1e-4 (zero and negative values
    included) becomes 1e4, an element at or above 1e4 becomes 1e-4, and an
    element in between becomes its reciprocal. *)
Theorem inverse_depth_saturates (t : tensor) (k : nat) :
  (k < length (data t))%nat ->
  let x := nth k (data t) 0 in
  let y := nth k (data (inverse_depth t)) 0 in
  (x <= 1e-4 -> y = 1e4) /\
  (1e4 <= x -> y = 1e-4) /\
  (1e-4 <= x <= 1e4 -> y = 1 / x).
Proof.
  intros Hk x y; subst x y; rewrite (inverse_depth_nth t k Hk).
  split; [|split]; intros Hx.
  - rewrite clamp_below by exact Hx. unfold clamp_min; lra.
  - rewrite clamp_above by exact Hx. unfold clamp_max; lra.
  - rewrite clamp_inside by exact Hx. reflexivity.
Qed.

(** X2: the transform reverses the order of the values of a map: where the
    raw map is smaller or equal the returned depth is larger or equal. *)
Theorem inverse_depth_antitone (t : tensor) (i j : nat) :
  (i < length (data t))%nat -> (j < length (data t))%nat ->
  nth i (data t) 0 <= nth j (data t) 0 ->
  nth j (data (inverse_depth t)) 0 <= nth i (data (inverse_depth t)) 0.
Proof.
  intros Hi Hj Hle.
  rewrite (inverse_depth_nth t i Hi), (inverse_depth_nth t j Hj).
  unfold Rdiv; rewrite !Rmult_1_l.
  apply Rinv_le_contravar; [apply clamp_pos | apply clamp_monotone; exact Hle].
Qed.

Lemma inverse_twice_value (x : R) :
  1 / clamp (1 / clamp x clamp_min clamp_max) clamp_min clamp_max =
  clamp x clamp_min clamp_max.
Proof.
  rewrite clamp_inside by apply inverse_in_range.
  unfold Rdiv; rewrite !Rmult_1_l. apply Rinv_inv.
Qed.

Lemma inverse_depth_twice (t : tensor) :
  inverse_depth (inverse_depth t) =
  tmap (fun x => clamp x clamp_min clamp_max) t.
Proof.
  unfold inverse_depth, tmap; simpl; f_equal.
  rewrite map_map; apply map_ext; intros x; apply inverse_twice_value.
Qed.

Lemma tmap_clamp_id (d : tensor) :
  Forall (fun x => 1e-4 <= x <= 1e4) (data d) ->
  tmap (fun x => clamp x 1e-4 1e4) d = d.
Proof.
  destruct d as [sh dt]; unfold tmap; simpl; intros Hd; f_equal.
  induction Hd as [|x xs Hx _ IHx]; [reflexivity|].
  simpl; rewrite IHx; f_equal.
  apply clamp_inside; exact Hx.
Qed.

(** X3: over the reals (tensor elements idealised as real numbers, without
    rounding), post-processing is its own inverse up to the clamp: feeding
    the depth maps returned by a call without target sizes into a second
    such call returns the original maps clamped to [1e-4, 1e4] (so the
    original maps themselves when their values lie in that range). *)
Theorem post_process_twice self ds out :
  post_process_depth_estimation self ds None None = Ok out ->
  post_process_depth_estimation self (predicted_depth out) None None =
  Ok (mkOutputs (map (tmap (fun x => clamp x 1e-4 1e4)) ds) None) /\
  (Forall (fun d => Forall (fun x => 1e-4 <= x <= 1e4) (data d)) ds ->
   post_process_depth_estimation self (predicted_depth out) None None =
   Ok (mkOutputs ds None)).
Proof.
  intros H.
  rewrite fovs_ignored_without_target_sizes in H by reflexivity.
  injection H as <-; cbn [predicted_depth].
  rewrite fovs_ignored_without_target_sizes by reflexivity.
  cbn [is_Some].
  assert (E : map inverse_depth (map inverse_depth ds) =
              map (tmap (fun x => clamp x 1e-4 1e4)) ds).
  { rewrite map_map; apply map_ext; intros d; apply inverse_depth_twice. }
  rewrite E; clear E; split; [reflexivity|].
  intros Hrange; do 2 f_equal.
  induction Hrange as [|d ds' Hd _ IH]; [reflexivity|].
  simpl; rewrite IH, tmap_clamp_id by exact Hd; reflexivity.
Qed.

(** X5: the factor applied to the raw depth does not depend on the target
    width: for a non-zero width and a fov whose half-angle tangent is not
    zero, [predicted_depth * width / f] with
    f = 0.5 * width / tan(0.5 * radians(fov)) is
    [predicted_depth * 2 * tan(0.5 * radians(fov))]. *)
Theorem fov_scale_independent_of_width (w : nat) (v : R) (d : tensor) :
  w <> 0%nat -> tan (0.5 * deg2rad v) <> 0 ->
  scale_depth w (corrected_fov w v) d =
  tmap (fun x => x * (2 * tan (0.5 * deg2rad v))) d.
Proof.
  intros Hw Htan.
  unfold scale_depth, corrected_fov, tmap; f_equal.
  apply map_ext; intros x.
  assert (HW : INR w <> 0) by (apply not_0_INR; exact Hw).
  set (T := tan (0.5 * deg2rad v)) in *.
  replace 0.5 with (/ 2) by lra.
  field; split; assumption.
Qed.

(** ** Shapes and well-formedness of the returned maps *)

(** X6: when [interpolate] returns the documented shape, a two-dimensional
    sample resized to the target size (h, w) comes back with the axes of
    size one removed from (h, w), with or without a fov; in particular its
    shape is exactly (h, w) when neither h nor w is one. *)
Theorem resized_shape self ds fovs tl out :
  interpolate_shape_law ->
  post_process_depth_estimation self ds fovs (Some tl) = Ok out ->
  forall n d h w H W,
    nth_error ds n = Some d -> nth_error tl n = Some (h, w) ->
    shape d = [H; W] ->
    exists y,
      nth_error (predicted_depth out) n = Some y /\
      shape y = filter (fun x => negb (Nat.eqb x 1)) [h; w] /\
      (h <> 1%nat -> w <> 1%nat -> shape y = [h; w]).
Proof.
  intros Hlaw Hout n d h w H W Hd Ht Hs.
  apply post_process_spec in Hout as (Hlf & Hlt & _ & Hys).
  destruct (depths_of_samples_nth _ _ _ _ _ Hys n d
              (nth n (or_nones ds fovs) None) (Some (h, w)) Hd)
    as (y & Hy & Hrel).
  - eapply or_nones_nth_error; eassumption.
  - simpl; rewrite nth_error_map, Ht; reflexivity.
  - exists y; split; [exact Hy|].
    simpl in Hrel; destruct Hrel as (mode & r & _ & Hr & ->).
    assert (Hshape : shape r = [1; 1; h; w]%nat).
    { eapply (Hlaw _ _ _ _ _ _ _ H W Hr).
      destruct (nth n (or_nones ds fovs) None);
        apply unsqueeze_twice_shape; simpl; exact Hs. }
    assert (E : shape (inverse_depth (squeeze r)) =
                filter (fun x => negb (Nat.eqb x 1)) [h; w])
      by (simpl; rewrite Hshape; reflexivity).
    split; [exact E|].
    intros Hh Hw; rewrite E; simpl.
    apply Nat.eqb_neq in Hh, Hw; rewrite Hh, Hw; reflexivity.
Qed.

Lemma numel_squeeze (s : list nat) :
  numel (filter (fun d => negb (Nat.eqb d 1)) s) = numel s.
Proof.
  induction s as [|a s IH]; simpl; [reflexivity|].
  destruct (Nat.eqb a 1) eqn:Ha; simpl.
  - apply Nat.eqb_eq in Ha; subst a; lia.
  - rewrite IH; reflexivity.
Qed.

Lemma wf_squeeze (t : tensor) : wf_tensor t -> wf_tensor (squeeze t).
Proof. unfold wf_tensor, squeeze; simpl; rewrite numel_squeeze; auto. Qed.

Lemma wf_tmap (f : R -> R) (t : tensor) : wf_tensor t -> wf_tensor (tmap f t).
Proof. unfold wf_tensor, tmap; simpl; rewrite length_map; auto. Qed.

(** X11: the returned depth maps keep the tensor invariant (as many elements
    as the product of the shape), provided the input maps do and
    [interpolate] returns such tensors; [.squeeze()] only drops axes of size
    one. *)
Theorem post_process_well_formed self ds fovs tss out :
  interpolate_wf_law ->
  Forall wf_tensor ds ->
  post_process_depth_estimation self ds fovs tss = Ok out ->
  Forall wf_tensor (predicted_depth out).
Proof.
  intros Hlaw Hds Hout.
  apply post_process_spec in Hout as (_ & _ & _ & Hys).
  induction Hys as [|d f t y ds' fs ts ys Hy _ IH].
  - constructor.
  - inversion Hds as [|? ? Hd Hds']; subst.
    constructor; [|apply IH; exact Hds'].
    unfold depth_of_sample in Hy; destruct t as [sz|].
    + destruct Hy as (mode & r & _ & Hr & ->).
      apply wf_tmap, wf_squeeze, (Hlaw _ _ _ _ _ Hr).
    + subst y; apply wf_tmap; exact Hd.
Qed.

(** ** When the call returns, and how it fails *)

Lemma sample_depth_iff self d f t y :
  sample_depth self d f t = Ok y <-> depth_of_sample self d f t y.
Proof.
  unfold sample_depth, depth_of_sample, interpolate_depth.
  destruct t as [sz|]; [|split; congruence].
  split.
  - intros H; monad_inv; eauto.
  - intros (mode & r & Hm & Hr & ->); rewrite Hm; simpl; rewrite Hr; reflexivity.
Qed.

Lemma sample_depths_Ok self ds :
  forall fs ts,
    length fs = length ds -> length ts = length ds ->
    (forall n d, nth_error ds n = Some d ->
       exists y, sample_depth self d (nth n fs None) (nth n ts None) = Ok y) ->
    exists ys, sample_depths self ds fs ts = Ok ys.
Proof.
  induction ds as [|d ds IH]; intros fs ts Hlf Hlt Hall.
  - exists []; destruct fs, ts; reflexivity.
  - destruct fs as [|f fs]; [discriminate|].
    destruct ts as [|t ts]; [discriminate|].
    destruct (Hall 0%nat d eq_refl) as (y & Hy); simpl in Hy.
    destruct (IH fs ts) as (ys & Hys); try (simpl in *; lia).
    { intros n d' Hd'; exact (Hall (S n) d' Hd'). }
    exists (y :: ys); simpl; rewrite Hy, Hys; reflexivity.
Qed.

(** X7: a call returns a result exactly when both length checks pass and,
    for every sample that has a target size, the resample filter has an
    entry in the interpolation table and [interpolate] returns on the
    (possibly fov-scaled) map; samples without a target size never fail. *)
Theorem post_process_returns_iff self ds fovs tss :
  (exists out, post_process_depth_estimation self ds fovs tss = Ok out) <->
  length_differs ds fovs = false /\
  length_differs ds tss = false /\
  forall n d,
    nth_error ds n = Some d ->
    exists y,
      depth_of_sample self d (nth n (or_nones ds fovs) None)
        (nth n (or_nones ds tss) None) y.
Proof.
  split.
  - intros (out & Hout).
    apply post_process_spec in Hout as (Hlf & Hlt & _ & Hys).
    split; [exact Hlf|]. split; [exact Hlt|].
    intros n d Hd.
    destruct (depths_of_samples_nth _ _ _ _ _ Hys n d
                (nth n (or_nones ds fovs) None)
                (nth n (or_nones ds tss) None) Hd)
      as (y & _ & Hy); eauto using or_nones_nth_error.
  - intros (Hlf & Hlt & Hall).
    rewrite post_process_eq by assumption.
    destruct (sample_depths_Ok self ds (or_nones ds fovs) (or_nones ds tss))
      as (ys & Hys); try (apply or_nones_length; assumption).
    + intros n d Hd; destruct (Hall n d Hd) as (y & Hy).
      exists y; apply sample_depth_iff; exact Hy.
    + rewrite Hys; simpl; eauto.
Qed.

Lemma lookup_interpolation_KeyError r e :
  lookup_interpolation r = Err e -> e = KeyError.
Proof.
  unfold lookup_interpolation.
  destruct r as [r|]; [destruct (pil_torch_interpolation_mapping r)|];
    congruence.
Qed.

Lemma sample_depth_Err self d f t e :
  sample_depth self d f t = Err e ->
  (exists sz, t = Some sz) /\
  ((e = KeyError /\ lookup_interpolation (Self.resample self) = Err KeyError) \/
   (e = TorchError /\
    exists mode, lookup_interpolation (Self.resample self) = Ok mode)).
Proof.
  unfold sample_depth, interpolate_depth.
  destruct t as [sz|]; [|discriminate].
  intros H; split; [eauto|].
  destruct (lookup_interpolation (Self.resample self)) as [mode|e'] eqn:Hm.
  - right; simpl in H.
    destruct (interpolate _ _ _ _); simpl in H; [discriminate|].
    injection H as <-; eauto.
  - left; simpl in H; injection H as <-.
    pose proof (lookup_interpolation_KeyError _ _ Hm); subst e'; auto.
Qed.

Lemma sample_depths_Err self ds :
  forall fs ts e,
    sample_depths self ds fs ts = Err e ->
    (exists sz, In (Some sz) ts) /\
    ((e = KeyError /\ lookup_interpolation (Self.resample self) = Err KeyError) \/
     (e = TorchError /\
      exists mode, lookup_interpolation (Self.resample self) = Ok mode)).
Proof.
  induction ds as [|d ds IH]; intros fs ts e H; [discriminate|].
  destruct fs as [|f fs]; [discriminate|].
  destruct ts as [|t ts]; [discriminate|].
  simpl in H. apply bind_Err in H as [H | (y & _ & H)].
  - apply sample_depth_Err in H as ((sz & ->) & H).
    split; [exists sz; left; reflexivity | exact H].
  - apply bind_Err in H as [H | (ys & _ & H)]; [|discriminate].
    apply IH in H as ((sz & Hin) & H).
    split; [exists sz; right; exact Hin | exact H].
Qed.

(** X8: a call fails in one of three ways only: with the length-mismatch
    [ValueError] when a length check fails; with [KeyError] when target
    sizes are given and the resample filter has no entry in the
    interpolation table; with an exception of torch when target sizes are
    given and [interpolate] raises.  It never fails on
    [outputs["fov"].append]: the fov list is [None] only when every sample's
    fov is. *)
Theorem post_process_failures self ds fovs tss e :
  post_process_depth_estimation self ds fovs tss = Err e ->
  (e = ValueError length_mismatch_msg /\
   (length_differs ds fovs = true \/ length_differs ds tss = true)) \/
  (length_differs ds fovs = false /\ length_differs ds tss = false /\
   (exists tl, tss = Some tl /\ tl <> []) /\
   ((e = KeyError /\ lookup_interpolation (Self.resample self) = Err KeyError) \/
    (e = TorchError /\
     exists mode, lookup_interpolation (Self.resample self) = Ok mode))).
Proof.
  intros H.
  destruct (length_differs ds fovs) eqn:Hlf.
  { unfold post_process_depth_estimation in H; rewrite Hlf in H.
    injection H as <-; auto. }
  destruct (length_differs ds tss) eqn:Hlt.
  { unfold post_process_depth_estimation in H; rewrite Hlf, Hlt in H.
    injection H as <-; auto. }
  right. rewrite post_process_eq in H by assumption.
  apply bind_Err in H as [H | (ys & _ & H)]; [|discriminate].
  apply sample_depths_Err in H as ((sz & Hin) & H).
  repeat split; try reflexivity; [|exact H].
  destruct tss as [tl|]; simpl in Hin.
  - exists tl; split; [reflexivity|]. intros ->; exact Hin.
  - apply repeat_spec in Hin; discriminate.
Qed.


(** ** Batches *)

Lemma sample_depths_app self ds1 :
  forall fs1 ts1 ds2 fs2 ts2,
    length fs1 = length ds1 -> length ts1 = length ds1 ->
    sample_depths self (ds1 ++ ds2) (fs1 ++ fs2) (ts1 ++ ts2) =
    (ys1 <- sample_depths self ds1 fs1 ts1 ;;
     ys2 <- sample_depths self ds2 fs2 ts2 ;;
     Ok (ys1 ++ ys2)).
Proof.
  induction ds1 as [|d ds1 IH]; intros fs1 ts1 ds2 fs2 ts2 Hf Ht.
  - destruct fs1; [|discriminate]. destruct ts1; [|discriminate].
    simpl. destruct (sample_depths self ds2 fs2 ts2); reflexivity.
  - destruct fs1 as [|f fs1]; [discriminate|].
    destruct ts1 as [|t ts1]; [discriminate|].
    simpl. destruct (sample_depth self d f t); [|reflexivity].
    simpl. rewrite IH by (simpl in *; lia).
    destruct (sample_depths self ds1 fs1 ts1); [|reflexivity].
    simpl. destruct (sample_depths self ds2 fs2 ts2); reflexivity.
Qed.

Lemma fov_values_app fs1 :
  forall ts1 fs2 ts2,
    length fs1 = length ts1 ->
    fov_values (fs1 ++ fs2) (ts1 ++ ts2) =
    fov_values fs1 ts1 ++ fov_values fs2 ts2.
Proof.
  induction fs1 as [|f fs1 IH]; intros [|t ts1] fs2 ts2 Hl;
    try discriminate; [reflexivity|].
  simpl. rewrite IH by (simpl in Hl; lia).
  destruct t, f; reflexivity.
Qed.

Lemma or_nones_app {A B : Type} (l1 l2 : list A) (o1 o2 : option (list B)) :
  is_Some o1 = is_Some o2 ->
  or_nones (l1 ++ l2) (option_app o1 o2) = or_nones l1 o1 ++ or_nones l2 o2.
Proof.
  destruct o1, o2; simpl; try discriminate; intros _.
  - apply map_app.
  - rewrite length_app; apply repeat_app.
Qed.

Lemma length_differs_app {A B : Type} (l1 l2 : list A)
    (o1 o2 : option (list B)) :
  length_differs l1 o1 = false -> length_differs l2 o2 = false ->
  length_differs (l1 ++ l2) (option_app o1 o2) = false.
Proof.
  destruct o1, o2; simpl; try reflexivity.
  rewrite !negb_false_iff, !Nat.eqb_eq, !length_app; lia.
Qed.

(** X10: the samples are processed independently and in order: if two calls
    return, the call on the two batches concatenated (with fovs and target
    sizes both given or both absent in the two calls) returns the two results
    concatenated. *)
Theorem post_process_batch_concat self ds1 ds2 f1 f2 t1 t2 o1 o2 :
  post_process_depth_estimation self ds1 f1 t1 = Ok o1 ->
  post_process_depth_estimation self ds2 f2 t2 = Ok o2 ->
  is_Some f1 = is_Some f2 -> is_Some t1 = is_Some t2 ->
  post_process_depth_estimation self (ds1 ++ ds2) (option_app f1 f2)
    (option_app t1 t2) =
  Ok (mkOutputs (predicted_depth o1 ++ predicted_depth o2)
        (option_app (fov o1) (fov o2))).
Proof.
  intros H1 H2 Hf Ht.
  pose proof (post_process_spec _ _ _ _ _ H1) as (Hlf1 & Hlt1 & _ & _).
  pose proof (post_process_spec _ _ _ _ _ H2) as (Hlf2 & Hlt2 & _ & _).
  rewrite post_process_eq in H1, H2 by assumption.
  rewrite post_process_eq by (apply length_differs_app; assumption).
  rewrite !or_nones_app by assumption.
  rewrite sample_depths_app by (apply or_nones_length; assumption).
  apply bind_Ok in H1 as (ys1 & Hys1 & H1).
  apply bind_Ok in H2 as (ys2 & Hys2 & H2).
  rewrite Hys1, Hys2; simpl.
  injection H1 as <-; injection H2 as <-; simpl.
  rewrite fov_values_app
    by (rewrite !or_nones_length by assumption; reflexivity).
  destruct f1, f2; simpl in *; try discriminate; reflexivity.
Qed.

(** ** The corrected focal value *)

(** X12: for a field of view strictly between 0 and 180 degrees and a
    non-zero target width the corrected focal value is positive, and so is
    the factor [width / f] applied to the raw depth. *)
Theorem corrected_fov_positive (w : nat) (v : R) :
  w <> 0%nat -> 0 < v < 180 ->
  0 < corrected_fov w v /\ 0 < INR w / corrected_fov w v.
Proof.
  intros Hw [Hv0 Hv180].
  assert (HW : 0 < INR w) by (apply lt_0_INR; lia).
  assert (Hpi : 0 < PI) by apply PI_RGT_0.
  assert (Htan : 0 < tan (0.5 * deg2rad v)).
  { apply tan_gt_0; unfold deg2rad; nra. }
  assert (Hf : 0 < corrected_fov w v).
  { unfold corrected_fov. apply Rdiv_lt_0_compat; [lra | exact Htan]. }
  split; [exact Hf | apply Rdiv_lt_0_compat; assumption].
Qed.

(** ** Validation and the built transforms *)

Lemma or_else_Some {A : Type} (x : option A) (d : A) : or_else x (Some d) <> None.
Proof. destruct x; discriminate. Qed.

(** X13: a processor built by [__init__] with resample, antialias and
    rescale factor set cannot be made to fail validation by the overrides of
    a call: whatever overrides are passed or omitted, a call that asks for
    "pt" tensors in channel-first layout passes [_validate_input_arguments].
    ([__init__] always sets size, image mean and image std, and an override
    only replaces a value, never unsets it.) *)
Theorem init_then_validate mean0 std0 i_do_resize i_size i_resample
    i_antialias i_do_rescale i_rescale_factor i_do_normalize i_mean i_std
    do_resize size resample antialias do_rescale rescale_factor do_normalize
    image_mean image_std image_type :
  let self :=
    __init__ mean0 std0 i_do_resize i_size (Some i_resample)
      (Some i_antialias) i_do_rescale (Some i_rescale_factor) i_do_normalize
      i_mean i_std in
  _validate_input_arguments (Some "pt"%string)
    (or_default do_resize (Self.do_resize self))
    (Some (or_default size (Self.size self)))
    (or_else resample (Self.resample self))
    (or_else antialias (Self.antialias self))
    (or_default do_rescale (Self.do_rescale self))
    (or_else rescale_factor (Self.rescale_factor self))
    (or_default do_normalize (Self.do_normalize self))
    (Some (or_default image_mean (Self.image_mean self)))
    (Some (or_default image_std (Self.image_std self)))
    ChannelDimension_FIRST image_type = Ok tt.
Proof.
  intros self; apply validate_spec.
  unfold invalid_arguments; subst self; cbn [__init__ Self.resample
    Self.antialias Self.rescale_factor].
  intros [H | [H | [(_ & [H | [H | H]]) | [(_ & H) | (_ & [H | H])]]]];
    try discriminate; try (apply H; reflexivity);
    eapply or_else_Some; eassumption.
Qed.

(** X14: validation guards what the built steps carry: on arguments that
    [_validate_input_arguments] accepts, every step of a list that
    [_build_transforms] returns carries only parameters that are set (no
    rescale or fused step without a rescale factor, no resize step without
    an antialias flag).  Whether constructing a step returns is not part of
    the statement. *)
Theorem validated_steps_carry_set_parameters return_tensors do_resize size
    resample antialias do_rescale rescale_factor do_normalize image_mean
    image_std data_format image_type ts :
  _validate_input_arguments return_tensors do_resize (Some size) resample
    antialias do_rescale rescale_factor do_normalize (Some image_mean)
    (Some image_std) data_format image_type = Ok tt ->
  _build_transforms do_resize size resample antialias do_rescale
    rescale_factor do_normalize image_mean image_std image_type = Ok ts ->
  Forall step_parameters_set ts.
Proof.
  intros Hval Hts.
  assert (Hok : ~ invalid_arguments return_tensors do_resize (Some size)
                    resample antialias do_rescale rescale_factor do_normalize
                    (Some image_mean) (Some image_std) data_format).
  { intros Hinv.
    apply (proj1 (validate_spec _ _ _ _ _ _ _ _ _ _ _ image_type)) in Hinv.
    destruct Hinv as (msg & Hmsg); congruence. }
  unfold invalid_arguments in Hok.
  assert (Haa : do_resize = true -> antialias <> None).
  { intros Hr Hn; apply Hok; tauto. }
  assert (Hrf : do_rescale = true -> rescale_factor <> None).
  { intros Hr Hn; apply Hok; tauto. }
  apply build_transforms_Ok in Hts as (rsz & -> & Hr).
  apply Forall_app; split; [|apply Forall_app; split].
  - destruct image_type; simpl; repeat constructor.
  - destruct do_rescale, do_normalize; simpl; repeat constructor; simpl; auto.
  - destruct do_resize; [destruct Hr as (m & _ & ->) | subst rsz];
      repeat constructor; simpl; auto.
Qed.

(** X15: a call that returns was a valid call: the batch is not empty, the
    first image has a supported type, the merged arguments are not invalid
    (so the backend is "pt" and the layout channel-first), and the returned
    feature is tagged "pt". *)
Theorem preprocess_success_implies_valid self images do_resize size resample
    antialias do_rescale rescale_factor do_normalize image_mean image_std
    return_tensors data_format bf :
  preprocess self images do_resize size resample antialias do_rescale
    rescale_factor do_normalize image_mean image_std return_tensors
    data_format = Ok bf ->
  (exists first rest,
     images = first :: rest /\
     supported_image_type (get_image_type first) = true) /\
  ~ invalid_arguments return_tensors
      (or_default do_resize (Self.do_resize self))
      (Some (or_default size (Self.size self)))
      (or_else resample (Self.resample self))
      (or_else antialias (Self.antialias self))
      (or_default do_rescale (Self.do_rescale self))
      (or_else rescale_factor (Self.rescale_factor self))
      (or_default do_normalize (Self.do_normalize self))
      (Some (or_default image_mean (Self.image_mean self)))
      (Some (or_default image_std (Self.image_std self)))
      data_format /\
  tensor_type bf = Some "pt"%string /\
  data_format = ChannelDimension_FIRST.
Proof.
  intros H; unfold preprocess in H.
  destruct images as [|first rest]; [discriminate|].
  destruct (supported_image_type (get_image_type first)) eqn:Hsup;
    cbn [negb] in H; [|discriminate].
  apply bind_Ok in H as (u & Hval & H).
  assert (Hok : ~ invalid_arguments return_tensors
      (or_default do_resize (Self.do_resize self))
      (Some (or_default size (Self.size self)))
      (or_else resample (Self.resample self))
      (or_else antialias (Self.antialias self))
      (or_default do_rescale (Self.do_rescale self))
      (or_else rescale_factor (Self.rescale_factor self))
      (or_default do_normalize (Self.do_normalize self))
      (Some (or_default image_mean (Self.image_mean self)))
      (Some (or_default image_std (Self.image_std self)))
      data_format).
  { intros Hinv.
    apply (proj1 (validate_spec _ _ _ _ _ _ _ _ _ _ _
                    (get_image_type first))) in Hinv.
    destruct Hinv as (msg & Hmsg); congruence. }
  split; [eauto|]. split; [exact Hok|].
  apply bind_Ok in H as (T & _ & H).
  apply bind_Ok in H as (ys & _ & H).
  apply bind_Ok in H as (pv & _ & H).
  injection H as <-; cbn [tensor_type].
  unfold invalid_arguments in Hok.
  split.
  - destruct return_tensors as [rt|];
      [destruct (string_dec rt "pt") as [->|Hne]; [reflexivity|]|];
      exfalso; apply Hok; left; congruence.
  - destruct (string_dec data_format ChannelDimension_FIRST) as [->|Hne];
      [reflexivity | exfalso; apply Hok; tauto].
Qed.

End Torch.

Arguments interpolate_shape_law {InterpolationMode} interpolate.
Arguments tv_resize_shape_law {InterpolationMode} tv_resize.
Arguments post_process_depth_estimation {InterpolationMode}.
Arguments post_process_depth_estimation_per_sample {InterpolationMode}.
Arguments preprocess {InterpolationMode}.
Arguments _build_transforms {InterpolationMode}.
Arguments Compose {InterpolationMode}.
Arguments lookup_interpolation {InterpolationMode}.
Arguments PILToTensor {InterpolationMode}.
Arguments NumpyToTensor {InterpolationMode}.
Arguments FusedRescaleNormalize {InterpolationMode}.
Arguments Rescale {InterpolationMode}.
Arguments Normalize {InterpolationMode}.
Arguments Resize {InterpolationMode}.
Arguments get_transforms {InterpolationMode}.
Arguments apply_transform {InterpolationMode}.
Arguments conversion_steps {InterpolationMode}.
Arguments scaling_steps {InterpolationMode}.
Arguments is_conversion {InterpolationMode}.
Arguments is_scaling {InterpolationMode}.
Arguments is_resize {InterpolationMode}.
Arguments interpolate_wf_law {InterpolationMode} interpolate.
Arguments sample_depth {InterpolationMode}.
Arguments sample_depths {InterpolationMode}.
Arguments depth_of_sample {InterpolationMode}.
Arguments step_parameters_set {InterpolationMode}.
Arguments _validate_input_arguments : simpl never.

(** * The properties on concrete inputs *)

Lemma nearest_interpolate_shape_law :
  interpolate_shape_law nearest_interpolate.
Proof.
  intros t sz mode aa r B C H W Hr Hs.
  unfold nearest_interpolate in Hr; rewrite Hs in Hr.
  injection Hr as <-; reflexivity.
Qed.

Lemma nearest_resize_shape_law : tv_resize_shape_law nearest_resize.
Proof.
  intros img sz mode aa img' C H W Hr Hk Hs.
  unfold nearest_resize, nearest_interpolate, unsqueeze in Hr.
  rewrite Hk, Hs in Hr; simpl in Hr.
  injection Hr as <-; reflexivity.
Qed.

(** C1 on the sample depth map: the three values of the specification's
    examples are inverted element by element. *)
Lemma C1_witness :
  exists out y,
    post_process_depth_estimation example_mapping nearest_interpolate
      example_processor [example_depth] None None = Ok out /\
    nth_error (predicted_depth out) 0 = Some y /\
    get2 y 2 0 0 = 1 / clamp 2 1e-4 1e4 /\
    get2 y 2 0 1 = 1 / clamp 0.00001 1e-4 1e4 /\
    get2 y 2 1 0 = 1 / clamp 1e5 1e-4 1e4.
Proof.
  destruct (C1_inverse_depth_elementwise _ example_mapping
              nearest_interpolate example_processor [example_depth])
    as (out & Hout & _ & Hel).
  destruct (Hel 0%nat example_depth eq_refl) as (y & Hy & _ & _ & _ & H2).
  exists out, y.
  split; [exact Hout|]. split; [exact Hy|].
  split; [|split].
  - apply (H2 2%nat 2%nat 0%nat 0%nat); [reflexivity | reflexivity | lia | lia].
  - apply (H2 2%nat 2%nat 0%nat 1%nat); [reflexivity | reflexivity | lia | lia].
  - apply (H2 2%nat 2%nat 1%nat 0%nat); [reflexivity | reflexivity | lia | lia].
Defined.

(** C2 for a fov of 60 degrees and the target size (2, 100). *)
Lemma C2_witness :
  exists out fs,
    post_process_depth_estimation example_mapping nearest_interpolate
      example_processor [example_depth] (Some [60]) (Some [(2, 100)%nat])
    = Ok out /\
    fov out = Some fs /\
    nth_error fs 0 = Some (0.5 * INR 100 / tan (0.5 * deg2rad 60)).
Proof.
  eexists.
  assert (Hout : post_process_depth_estimation example_mapping
                   nearest_interpolate example_processor [example_depth]
                   (Some [60]) (Some [(2, 100)%nat]) = Ok _)
    by reflexivity.
  destruct (C2_fov_scaling _ _ _ _ _ _ _ _ Hout) as (fs & Hfov & _ & _ & Hn).
  exists fs.
  split; [exact Hout|]. split; [exact Hfov|].
  exact (proj1 (Hn 0%nat example_depth 60 2%nat 100%nat
                  eq_refl eq_refl eq_refl)).
Defined.

(** C3 for an empty [fovs] against one predicted depth. *)
Lemma C3_witness :
  post_process_depth_estimation example_mapping nearest_interpolate
    example_processor [example_depth] (Some []) None
  = Err (ValueError length_mismatch_msg).
Proof.
  apply (proj1 (C3_length_mismatch _ example_mapping nearest_interpolate
                  example_processor [example_depth] (Some []) None)).
  left; exists []; split; [reflexivity | simpl; lia].
Defined.

(** C4 (amended) for two samples with target sizes, the first without a
    fov value. *)
Lemma C4_per_sample_witness :
  exists out,
    post_process_depth_estimation_per_sample example_mapping
      nearest_interpolate example_processor [example_depth; example_depth]
      (Some [None; Some 60]) (Some [Some (2, 2); Some (2, 2)]%nat) = Ok out /\
    fov out = Some [0.5 * INR 2 / tan (0.5 * deg2rad 60)] /\
    length (predicted_depth out) = 2%nat.
Proof.
  eexists.
  assert (Hout : post_process_depth_estimation_per_sample example_mapping
                   nearest_interpolate example_processor
                   [example_depth; example_depth] (Some [None; Some 60])
                   (Some [Some (2, 2); Some (2, 2)]%nat) = Ok _)
    by reflexivity.
  destruct (C4_fov_list_per_sample _ _ _ _ _ _ _ _ Hout)
    as (_ & Hfov & Hlen & _).
  destruct (Hfov [None; Some 60] eq_refl) as (fs & Hfs & -> & _).
  split; [exact Hout|]. split; [exact Hfs | exact Hlen].
Defined.

(** C4 as stated fails when a supplied fov entry is [None]: both samples
    have a target size, yet the returned fov list holds one value only. *)
Lemma C4_counterexample_missing_fov :
  exists out fs,
    post_process_depth_estimation_per_sample example_mapping
      nearest_interpolate example_processor [example_depth; example_depth]
      (Some [None; Some 60]) (Some [Some (2, 2); Some (2, 2)]%nat) = Ok out /\
    fov out = Some fs /\
    length fs = 1%nat /\
    length (filter is_Some [Some (2, 2); Some (2, 2)]%nat) = 2%nat /\
    length (predicted_depth out) = 2%nat.
Proof.
  eexists; eexists.
  split; [reflexivity|]. split; [reflexivity|].
  repeat split; reflexivity.
Qed.

(** C5 at the target size (1, 2): the returned map has shape (2). *)
Lemma C5_witness :
  exists out y,
    post_process_depth_estimation example_mapping nearest_interpolate
      example_processor [example_depth] None (Some [(1, 2)%nat]) = Ok out /\
    predicted_depth out = [y] /\
    shape y = [2%nat] /\ shape y <> [1%nat; 2%nat].
Proof.
  eexists.
  assert (Hout : post_process_depth_estimation example_mapping
                   nearest_interpolate example_processor [example_depth]
                   None (Some [(1, 2)%nat]) = Ok _)
    by reflexivity.
  destruct (C5_unit_height_is_squeezed _ _ _ example_processor example_depth
              2%nat 2%nat 2%nat _ nearest_interpolate_shape_law eq_refl
              ltac:(lia) Hout) as (y & Hy & Hs).
  exists y; split; [exact Hout|]. split; [exact Hy | exact Hs].
Defined.

(** C10 for one sample with a fov and the target size (2, 2). *)
Lemma C10_witness :
  exists out,
    post_process_depth_estimation example_mapping nearest_interpolate
      example_processor [example_depth] (Some [60]) (Some [(2, 2)%nat])
    = Ok out /\
    Forall (fun y => Forall (fun x => 1e-4 <= x <= 1e4) (data y))
      (predicted_depth out).
Proof.
  eexists.
  assert (Hout : post_process_depth_estimation example_mapping
                   nearest_interpolate example_processor [example_depth]
                   (Some [60]) (Some [(2, 2)%nat]) = Ok _)
    by reflexivity.
  split; [exact Hout|].
  exact (C10_output_range _ _ _ _ _ _ _ _ Hout).
Defined.

(** C6 for a pixel-library input with all three flags set. *)
Lemma C6_witness :
  exists ts,
    _build_transforms example_mapping true (mkSize 4 5) (Some BILINEAR)
      (Some false) true (Some (1 / 255)) true (Scalar 0.5) (Scalar 0.5) PIL
    = Ok ts /\
    ts = [PILToTensor;
          FusedRescaleNormalize (Scalar 0.5) (Scalar 0.5) (Some (1 / 255));
          Resize (4, 5)%nat BILINEAR (Some false)] /\
    forall i j a b,
      nth_error ts i = Some a -> nth_error ts j = Some b ->
      is_scaling a = true -> is_resize b = true -> (i < j)%nat.
Proof.
  eexists.
  assert (Hts : _build_transforms example_mapping true (mkSize 4 5)
                  (Some BILINEAR) (Some false) true (Some (1 / 255)) true
                  (Scalar 0.5) (Scalar 0.5) PIL = Ok _)
    by reflexivity.
  destruct (proj1 (C6_transform_order _ example_mapping nearest_resize true
                     (mkSize 4 5) (Some BILINEAR) (Some false) true
                     (Some (1 / 255)) true (Scalar 0.5) (Scalar 0.5) PIL)
              _ Hts) as (rsz & _ & _ & Horder).
  split; [exact Hts|]. split; [reflexivity|].
  intros i j a b Hi Hj; exact (proj2 (Horder i j a b Hi Hj)).
Defined.

(** C7 on a (3, 1, 2) tensor with per-channel statistics. *)
Lemma C7_witness :
  Compose nearest_resize
    [FusedRescaleNormalize (PerChannel [0.5; 0.4; 0.3])
       (PerChannel [0.2; 0.25; 0.5]) (Some (1 / 255))]
    (mkImage TORCH (mkTensor [3; 1; 2]%nat [10; 20; 30; 40; 50; 60])) =
  Compose nearest_resize
    [Rescale (Some (1 / 255));
     Normalize (PerChannel [0.5; 0.4; 0.3]) (PerChannel [0.2; 0.25; 0.5])]
    (mkImage TORCH (mkTensor [3; 1; 2]%nat [10; 20; 30; 40; 50; 60])).
Proof.
  exact (proj1 (C7_fused_rescale_normalize PILImageResampling nearest_resize
                  (PerChannel [0.5; 0.4; 0.3]) (PerChannel [0.2; 0.25; 0.5])
                  (Some (1 / 255))) _).
Defined.

(** C8 for one raw array and the tensor backend "np". *)
Lemma C8_witness :
  exists msg,
    preprocess example_mapping nearest_resize example_processor
      [example_image] None None None None None None None None None
      (Some "np"%string) ChannelDimension_FIRST = Err (ValueError msg).
Proof.
  apply (proj1 (C8_invalid_arguments_nonempty_batch _ example_mapping
                  nearest_resize example_processor example_image []
                  None None None None None None None None None
                  (Some "np"%string) ChannelDimension_FIRST)).
  left; left; discriminate.
Defined.

(** C8 as stated fails on an empty batch: the lookup of the first image
    fails before any argument is validated, so an unsupported tensor backend
    is then reported as an [IndexError], not as a [ValueError]. *)
Lemma C8_counterexample_empty_batch :
  let r :=
    preprocess example_mapping nearest_resize example_processor
      [] None None None None None None None None None
      (Some "np"%string) ChannelDimension_FIRST in
  Some "np"%string <> Some "pt"%string /\
  r = Err IndexError /\
  forall msg, r <> Err (ValueError msg).
Proof.
  split; [discriminate|]. split; [reflexivity | discriminate].
Qed.

(** C9 for a batch of two raw arrays resized to (2, 2). *)
Lemma C9_witness :
  exists bf pixel_values,
    preprocess example_mapping nearest_resize example_processor
      [example_image; example_image] None (Some (mkSize 2 2)) None None None
      None None None None (Some "pt"%string) ChannelDimension_FIRST = Ok bf /\
    bf_data bf = [("pixel_values"%string, pixel_values)] /\
    shape pixel_values = [2; 3; 2; 2]%nat.
Proof.
  eexists.
  assert (Hbf : preprocess example_mapping nearest_resize example_processor
                  [example_image; example_image] None (Some (mkSize 2 2))
                  None None None None None None None (Some "pt"%string)
                  ChannelDimension_FIRST = Ok _)
    by reflexivity.
  destruct (C9_preprocess_batch _ _ _ _ _ _ _ _ _ _ _ _ _ _ _ _ _
              nearest_resize_shape_law Hbf)
    as (first & rest & T & ys & pv & Himgs & _ & _ & _ & Hbf' & _ & Hshape).
  injection Himgs as <- <-.
  exists pv.
  split; [exact Hbf|].
  split; [rewrite Hbf'; reflexivity|].
  exact (Hshape example_image 3%nat 1%nat 2%nat (or_introl eq_refl) eq_refl
           eq_refl).
Defined.

(** ** Further properties on concrete inputs *)

Lemma nearest_interpolate_wf_law : interpolate_wf_law nearest_interpolate.
Proof.
  intros t sz mode aa r Hr; unfold nearest_interpolate in Hr.
  destruct (shape t) as [|B [|C [|H [|W [|? ?]]]]]; try discriminate.
  injection Hr as <-; unfold wf_tensor; simpl.
  rewrite length_map, length_seq; lia.
Qed.

(** X1 on the sample depth map: the value 0.00001 becomes 1e4. *)
Lemma inverse_depth_saturates_witness :
  nth 1 (data (inverse_depth example_depth)) 0 = 1e4.
Proof.
  apply (proj1 (inverse_depth_saturates example_depth 1 ltac:(simpl; lia))).
  simpl; lra.
Defined.

(** X2 on the sample depth map: 0.00001 is below 2, so its depth is the
    larger one. *)
Lemma inverse_depth_antitone_witness :
  nth 0 (data (inverse_depth example_depth)) 0 <=
  nth 1 (data (inverse_depth example_depth)) 0.
Proof.
  apply (inverse_depth_antitone example_depth 1 0);
    [simpl; lia | simpl; lia | simpl; lra].
Defined.

(** X3 on the sample depth map. *)
Lemma post_process_twice_witness :
  exists out,
    post_process_depth_estimation example_mapping nearest_interpolate
      example_processor [example_depth] None None = Ok out /\
    post_process_depth_estimation example_mapping nearest_interpolate
      example_processor (predicted_depth out) None None =
    Ok (mkOutputs [tmap (fun x => clamp x 1e-4 1e4) example_depth] None).
Proof.
  eexists.
  assert (Hout : post_process_depth_estimation example_mapping
                   nearest_interpolate example_processor [example_depth]
                   None None = Ok _)
    by reflexivity.
  split; [exact Hout|].
  exact (proj1 (post_process_twice _ _ _ _ _ _ Hout)).
Defined.

(** X4 for one sample with a fov and no target size. *)
Lemma fovs_ignored_without_target_sizes_witness :
  post_process_depth_estimation example_mapping nearest_interpolate
    example_processor [example_depth] (Some [60]) None =
  Ok (mkOutputs [inverse_depth example_depth] (Some [])).
Proof.
  exact (fovs_ignored_without_target_sizes _ example_mapping
           nearest_interpolate example_processor [example_depth]
           (Some [60]) eq_refl).
Defined.

Lemma tan_half_of_90_degrees : tan (0.5 * deg2rad 90) <> 0.
Proof.
  unfold deg2rad.
  replace (0.5 * (90 * (PI / 180))) with (PI / 4) by lra.
  rewrite tan_PI4; lra.
Qed.

(** X5 for a fov of 90 degrees and a width of 100. *)
Lemma fov_scale_independent_of_width_witness :
  scale_depth 100 (corrected_fov 100 90) example_depth =
  tmap (fun x => x * (2 * tan (0.5 * deg2rad 90))) example_depth.
Proof.
  apply fov_scale_independent_of_width;
    [discriminate | exact tan_half_of_90_degrees].
Defined.

(** X6 for the target size (2, 3). *)
Lemma resized_shape_witness :
  exists out y,
    post_process_depth_estimation example_mapping nearest_interpolate
      example_processor [example_depth] (Some [60]) (Some [(2, 3)%nat])
    = Ok out /\
    nth_error (predicted_depth out) 0 = Some y /\
    shape y = [2; 3]%nat.
Proof.
  eexists.
  assert (Hout : post_process_depth_estimation example_mapping
                   nearest_interpolate example_processor [example_depth]
                   (Some [60]) (Some [(2, 3)%nat]) = Ok _)
    by reflexivity.
  destruct (resized_shape _ _ _ _ _ _ _ _ nearest_interpolate_shape_law Hout
              0%nat example_depth 2%nat 3%nat 2%nat 2%nat
              eq_refl eq_refl eq_refl) as (y & Hy & _ & Hs).
  exists y; split; [exact Hout|]. split; [exact Hy|].
  apply Hs; discriminate.
Defined.

(** X7 for one sample resized to (2, 2). *)
Lemma post_process_returns_iff_witness :
  exists out,
    post_process_depth_estimation example_mapping nearest_interpolate
      example_processor [example_depth] None (Some [(2, 2)%nat]) = Ok out.
Proof.
  apply (proj2 (post_process_returns_iff _ example_mapping
                  nearest_interpolate example_processor [example_depth]
                  None (Some [(2, 2)%nat]))).
  split; [reflexivity|]. split; [reflexivity|].
  intros n d Hd.
  destruct n as [|n]; [|destruct n; discriminate].
  injection Hd as <-.
  eexists; simpl.
  exists BILINEAR; eexists.
  split; [reflexivity|]. split; reflexivity.
Defined.

(** X8 and X9 for a processor without a resample filter. *)
Lemma post_process_failures_witness :
  length_differs [example_depth] (@None (list R)) = false /\
  exists tl, Some [(2, 2)%nat] = Some tl /\ tl <> [].
Proof.
  assert (H : post_process_depth_estimation example_mapping
                nearest_interpolate example_processor_no_filter
                [example_depth] None (Some [(2, 2)%nat]) = Err KeyError)
    by reflexivity.
  destruct (post_process_failures _ _ _ _ _ _ _ _ H)
    as [(Hv & _) | (Hlf & _ & Htl & _)]; [discriminate|].
  split; [exact Hlf | exact Htl].
Defined.


(** X10 for two batches of one sample each. *)
Lemma post_process_batch_concat_witness :
  exists o1 o2,
    post_process_depth_estimation example_mapping nearest_interpolate
      example_processor [example_depth; example_depth] (Some [60; 90])
      (Some [(2, 2); (3, 2)]%nat) =
    Ok (mkOutputs (predicted_depth o1 ++ predicted_depth o2)
          (option_app (fov o1) (fov o2))) /\
    fov o1 = Some [corrected_fov 2 60] /\
    fov o2 = Some [corrected_fov 2 90].
Proof.
  eexists; eexists.
  assert (H1 : post_process_depth_estimation example_mapping
                 nearest_interpolate example_processor [example_depth]
                 (Some [60]) (Some [(2, 2)%nat]) = Ok _)
    by reflexivity.
  assert (H2 : post_process_depth_estimation example_mapping
                 nearest_interpolate example_processor [example_depth]
                 (Some [90]) (Some [(3, 2)%nat]) = Ok _)
    by reflexivity.
  split;
    [exact (post_process_batch_concat _ _ _ _ _ _ _ _ _ _ _ _ H1 H2
              eq_refl eq_refl)|].
  split; reflexivity.
Defined.

(** X11 for one sample resized to (3, 2). *)
Lemma post_process_well_formed_witness :
  exists out,
    post_process_depth_estimation example_mapping nearest_interpolate
      example_processor [example_depth] None (Some [(3, 2)%nat]) = Ok out /\
    Forall wf_tensor (predicted_depth out).
Proof.
  eexists.
  assert (Hout : post_process_depth_estimation example_mapping
                   nearest_interpolate example_processor [example_depth]
                   None (Some [(3, 2)%nat]) = Ok _)
    by reflexivity.
  split; [exact Hout|].
  refine (post_process_well_formed _ example_mapping nearest_interpolate
            example_processor [example_depth] None (Some [(3, 2)%nat]) _
            nearest_interpolate_wf_law _ Hout).
  constructor; [reflexivity | constructor].
Defined.

(** X12 for a fov of 60 degrees and a width of 100. *)
Lemma corrected_fov_positive_witness :
  0 < corrected_fov 100 60 /\ 0 < INR 100 / corrected_fov 100 60.
Proof.
  apply corrected_fov_positive; [discriminate | lra].
Defined.

(** X14 for the signature defaults and the target size (4, 5). *)
Lemma validated_steps_carry_set_parameters_witness :
  Forall step_parameters_set
    [PILToTensor;
     FusedRescaleNormalize (Scalar 0.5) (Scalar 0.5) (Some (1 / 255));
     Resize (4, 5)%nat BILINEAR (Some false)].
Proof.
  apply (validated_steps_carry_set_parameters _ example_mapping
           (Some "pt"%string) true (mkSize 4 5) (Some BILINEAR)
           (Some false) true (Some (1 / 255)) true (Scalar 0.5)
           (Scalar 0.5) ChannelDimension_FIRST PIL);
    reflexivity.
Defined.

(** X15 for a batch of two raw arrays resized to (2, 2). *)
Lemma preprocess_success_implies_valid_witness :
  exists bf,
    preprocess example_mapping nearest_resize example_processor
      [example_image; example_image] None (Some (mkSize 2 2)) None None None
      None None None None (Some "pt"%string) ChannelDimension_FIRST = Ok bf /\
    tensor_type bf = Some "pt"%string.
Proof.
  eexists.
  assert (Hbf : preprocess example_mapping nearest_resize example_processor
                  [example_image; example_image] None (Some (mkSize 2 2))
                  None None None None None None None (Some "pt"%string)
                  ChannelDimension_FIRST = Ok _)
    by reflexivity.
  split; [exact Hbf|].
  exact (proj1 (proj2 (proj2 (preprocess_success_implies_valid _ _
                                nearest_interpolate _ _ _ _ _ _ _ _ _ _ _ _
                                _ _ _ Hbf)))).
Defined.
